(** * video_translate.py: duration matching of the synthesized audio track

    A shallow embedding of [src/video_translate.py] and the properties of
    its duration-matching core:

    - [calculate_optimal_speed]  (lines 116-124),
    - the atempo filter chain built in [main]  (lines 242-268),
    - the speed adjustment with its rubberband fallback and the truncation
      that follows it  (lines 234-342),
    - the Thai translation step with its early return  (lines 193-212),
    - [main] itself, as the sequence of these steps.

    Conventions of the model.

    - A Python [float] is an IEEE 754 binary64 number: [spec_float] of the
      Standard Library with a precision of 53 bits and [emax = 1024], with
      its own division, addition, subtraction and comparisons (round to
      nearest even, signed zeros, infinities, NaN).  [None] is the [None]
      of [option float].
    - A Python [while] loop is a [Fixpoint] on a fuel counter that returns
      [None] when the fuel runs out before the loop condition fails.
    - The file system is a finite map from paths to file contents;
      [os.rename], [os.remove] and the external programs act on it.
    - External programs and services ([ffmpeg], [ffprobe], gTTS, FunASR,
      the translation API) are functions of a record [tools]; every
      theorem quantifies over them.
    - Console output is kept as [Print] events: formatting a value with
      [:.1f] is an operation of its own because it raises [TypeError] on
      [None].  Wall-clock timing is left out; the three word counts
      (lines 16-31), which only feed console output, are functions of
      their own and no events of [main]. *)

From Stdlib Require Import ZArith QArith Qabs Qround Qpower Lqa Lia List.
From Stdlib Require Import Floats.SpecFloat.
From stdpp Require Import gmap strings.
Import ListNotations.

Local Open Scope Q_scope.

(** ** Python floats: binary64 *)

Definition prec : Z := 53.
Definition emax : Z := 1024.

Abbreviation float := spec_float (only parsing).

(** [x / y], [x + y], [x - y] and [abs(x)].  The script divides only by
    a truthy duration, by [2.0] and by [0.5], so the [ZeroDivisionError]
    of Python's division cannot arise. *)
Definition fdiv (x y : float) : float := SFdiv prec emax x y.
Definition fadd (x y : float) : float := SFadd prec emax x y.
Definition fsub (x y : float) : float := SFsub prec emax x y.
Definition fabs (x : float) : float := SFabs x.

(** [x < y], [x > y], [x == y] and [x != y]; every comparison with NaN
    is [False], except [!=]. *)
Definition flt (x y : float) : bool := SFltb x y.
Definition fgt (x y : float) : bool := SFltb y x.
Definition feq (x y : float) : bool := SFeqb x y.
Definition fne (x y : float) : bool := negb (SFeqb x y).

(** The literals of the script: [0], [0.5], [1.0], [1.5] and [2.0]. *)
Definition zero : float := S754_zero false.
Definition half : float := S754_finite false 4503599627370496 (-53).
Definition one : float := S754_finite false 4503599627370496 (-52).
Definition one_and_half : float := S754_finite false 6755399441055744 (-52).
Definition two : float := S754_finite false 4503599627370496 (-51).

(** The float of an integer. *)
Definition float_of_Z (z : Z) : float := binary_normalize prec emax z 0 false.

(** Truthiness of an optional float: [None], [0.0] and [-0.0] are
    falsy. *)
Definition truthy (d : option float) : bool :=
  match d with
  | Some x => fne x zero
  | None => false
  end.

(** ** [calculate_optimal_speed] (lines 116-124) *)

Definition calculate_optimal_speed (video_duration audio_duration : option float)
  : float :=
  match video_duration, audio_duration with
  | Some v, Some a =>
      if truthy (Some v) && truthy (Some a) && fgt a zero
      then fdiv a v
      else one_and_half
  | _, _ => one_and_half
  end.

(** ** The atempo filter chain (lines 242-268) *)

(** Lines 247-249: [while remaining_factor > 2.0] append a stage [2.0] and
    halve the remaining factor.  The result is the remaining factor and
    the chain. *)
Fixpoint speed_up_loop (fuel : nat) (remaining_factor : float)
    (filter_chain : list float) : option (float * list float) :=
  match fuel with
  | O => None
  | S fuel' =>
      if fgt remaining_factor two
      then speed_up_loop fuel' (fdiv remaining_factor two) (filter_chain ++ [two])
      else Some (remaining_factor, filter_chain)
  end.

(** Lines 259-261: [while remaining_factor < 0.5] append a stage [0.5] and
    divide the remaining factor by [0.5]. *)
Fixpoint slow_down_loop (fuel : nat) (remaining_factor : float)
    (filter_chain : list float) : option (float * list float) :=
  match fuel with
  | O => None
  | S fuel' =>
      if flt remaining_factor half
      then slow_down_loop fuel' (fdiv remaining_factor half) (filter_chain ++ [half])
      else Some (remaining_factor, filter_chain)
  end.

(** Lines 242-268.  The script joins the stages ["atempo=v"] with commas
    into [filter_str]; the model keeps the list of the values [v]. *)
Definition build_filter_chain (fuel : nat) (speed_factor : float)
  : option (list float) :=
  if fgt speed_factor two then
    match speed_up_loop fuel speed_factor [] with
    | Some (remaining_factor, filter_chain) =>
        Some (if fgt remaining_factor one
              then filter_chain ++ [remaining_factor]
              else filter_chain)
    | None => None
    end
  else if flt speed_factor half then
    match slow_down_loop fuel speed_factor [] with
    | Some (remaining_factor, filter_chain) =>
        Some (if flt remaining_factor one
              then filter_chain ++ [remaining_factor]
              else filter_chain)
    | None => None
    end
  else Some [speed_factor].

(** ** Texts, files and the file system *)

(** A Python [str]: its Unicode code points. *)
Definition text : Type := list N.

(** [re.search] with the class of U+0E00..U+0E7F finds a match (line 204). *)
Definition is_thai (c : N) : bool := ((0x0E00 <=? c) && (c <=? 0x0E7F))%N.
Definition has_thai (t : text) : bool := existsb is_thai t.

(** [str.isspace] on one code point, for [str.strip()]. *)
Definition is_space (c : N) : bool :=
  (((0x09 <=? c) && (c <=? 0x0D)) || ((0x1C <=? c) && (c <=? 0x20))
   || (c =? 0x85) || (c =? 0xA0) || (c =? 0x1680)
   || ((0x2000 <=? c) && (c <=? 0x200A))
   || (c =? 0x2028) || (c =? 0x2029) || (c =? 0x202F) || (c =? 0x205F)
   || (c =? 0x3000))%N.

Fixpoint lstrip (t : text) : text :=
  match t with
  | c :: t' => if is_space c then lstrip t' else t
  | [] => []
  end.

Definition strip (t : text) : text := rev (lstrip (rev (lstrip t))).

(** ** Word counts (lines 16-31) *)

(** The maximal runs of characters that satisfy [p], in order: what
    [re.findall] returns for a pattern [[class]+] and what [str.split()]
    returns for the characters that are not whitespace.  [run] is the run
    being read, last character first. *)
Fixpoint runs_from (p : N -> bool) (run : text) (t : text) : list text :=
  match t with
  | [] => match run with [] => [] | _ => [rev run] end
  | c :: t' =>
      if p c then runs_from p (c :: run) t'
      else match run with
           | [] => runs_from p [] t'
           | _ => rev run :: runs_from p [] t'
           end
  end.

Definition runs (p : N -> bool) (t : text) : list text := runs_from p [] t.

Definition is_chinese (c : N) : bool := ((0x4E00 <=? c) && (c <=? 0x9FFF))%N.

(** Lines 16-20: the number of matches of the class U+4E00..U+9FFF. *)
Definition count_chinese_words (t : text) : nat := length (List.filter is_chinese t).

(** Lines 22-26: the number of matches of one or more characters of
    U+0E00..U+0E7F. *)
Definition count_thai_words (t : text) : nat := length (runs is_thai t).

(** [text.split()]. *)
Definition split (t : text) : list text := runs (fun c => negb (is_space c)) t.

(** Lines 28-31: [len(text.split())]. *)
Definition count_english_words (t : text) : nat := length (split t).

(** A file holds text (written or read with [encoding='utf-8'], kept as
    code points) or media bytes. *)
Inductive file : Type :=
  | TextFile (t : text)
  | MediaFile (bytes : list Byte.byte).

(** How a child process run with [check=True] ends: exit status 0 with
    its output file written, or a non-zero status, which raises
    [CalledProcessError]; a failed run may leave a partial output file
    behind ([Some]) or never open the output ([None]). *)
Inductive proc : Type :=
  | Exit0 (out : file)
  | ExitFail (partial : option file).

(** The [-filter:a] argument of the two rate-shift calls. *)
Inductive audio_filter : Type :=
  | Atempo (filter_chain : list float)   (* "atempo=v1,atempo=v2,..." *)
  | Rubberband (tempo : float).          (* "rubberband=tempo=v" *)

(** The external collaborators. *)
Record tools : Type := {
  (* ffmpeg -y -i video -vn -acodec pcm_s16le audio *)
  ffmpeg_extract : option file -> proc;
  (* AutoModel(...).generate(input=audio): the result list, None on an exception *)
  funasr_generate : option file -> option (list text);
  (* the translation API: source, target, text; None on any exception *)
  google_translate : string -> string -> text -> option text;
  (* gTTS(text, lang='th').save(path), first attempt and retry *)
  gtts_save : text -> option file;
  gtts_save_retry : text -> option file;
  (* ffprobe ... format=duration, parsed by float(); None on any exception *)
  ffprobe_duration : option file -> option float;
  (* ffmpeg -y -i src -filter:a f dst *)
  ffmpeg_filter : audio_filter -> option file -> proc;
  (* ffmpeg -y -i src -t duration dst *)
  ffmpeg_trim : float -> option file -> proc;
  (* ffmpeg -y -i video -i audio -c:v copy ... -shortest dst *)
  ffmpeg_mux : option file -> option file -> proc
}.

(** Exceptions the script can raise. *)
Inductive exn : Type :=
  | CalledProcessError
  | TypeError
  | FileNotFoundError
  | UnicodeDecodeError
  | gTTSError.

(** Lines printed by steps 4 and 5. *)
Inductive message : Type :=
  | MsgUsingManual (path : string)
  | MsgTranslating
  | MsgTranslateFailed
  | MsgSavedTo (path : string)
  | MsgPleaseTranslate
  | MsgRunAgain (input_video output_video : string)
  | MsgConverting
  | MsgVideoDuration (d : float)
  | MsgInitialDuration (d : float)
  | MsgSpeedFactor (f : float)
  | MsgAdjusting
  | MsgChained (filter_chain : list float)
  | MsgSingle (filter_chain : list float)
  | MsgFinalDuration (d : float)
  | MsgStillDiffers (final_audio_duration video_duration : float)
  | MsgFactorApplied (f : float)
  | MsgDifference (d : float)
  | MsgTruncating
  | MsgTruncatedDuration (d : float)
  | MsgTruncationFailed
  | MsgUsingAdjusted
  | MsgAdjustFailed
  | MsgTryingRubberband
  | MsgRubberbandDuration (d : float)
  | MsgRubberbandFailed
  | MsgUsingOriginal
  | MsgNoAdjustment.

(** What a run does to the outside, in order. *)
Inductive event : Type :=
  | Print (m : message)
  | Extract (video audio : string)
  | Transcribe (audio : string)
  | Translate (source target : string)
  | Synthesize (path : string)
  | Probe (path : string)
  | Filter (f : audio_filter) (src dst : string)
  | Trim (duration : float) (src dst : string)
  | Mux (video audio dst : string)
  | WriteText (path : string) (t : text).

Record world : Type := {
  fs : gmap string file;
  log : list event
}.

(** ** The monad of the script: state, exceptions, fuel *)

Inductive result (A : Type) : Type :=
  | Val (a : A)
  | Raise (e : exn)
  | OutOfFuel.
Arguments Val {A} a.
Arguments Raise {A} e.
Arguments OutOfFuel {A}.

Definition M (A : Type) : Type := world -> result A * world.

Definition ret {A} (a : A) : M A := fun w => (Val a, w).

Definition bind {A B} (k : A -> M B) (m : M A) : M B :=
  fun w =>
    match m w with
    | (Val a, w') => k a w'
    | (Raise e, w') => (Raise e, w')
    | (OutOfFuel, w') => (OutOfFuel, w')
    end.

(** stdpp's monad notations: [x ← m; k] and [m;; k]. *)
#[global] Instance M_ret : MRet M := @ret.
#[global] Instance M_bind : MBind M := @bind.

Definition raise {A} (e : exn) : M A := fun w => (Raise e, w).

(** [try: body  except subprocess.CalledProcessError: handler]: any other
    exception goes through; the state the body reached is kept. *)
Definition try_except_cpe {A} (body handler : M A) : M A :=
  fun w =>
    match body w with
    | (Raise CalledProcessError, w') => handler w'
    | r => r
    end.

Definition emit (e : event) : M unit :=
  fun w => (Val tt, {| fs := fs w; log := log w ++ [e] |}).

Definition print (m : message) : M unit := emit (Print m).

Definition read_file (path : string) : M (option file) :=
  fun w => (Val (fs w !! path), w).

Definition set_fs (f : gmap string file -> gmap string file) : M unit :=
  fun w => (Val tt, {| fs := f (fs w); log := log w |}).

(** [f'{d:.1f}']: a float is formatted, [None] raises [TypeError]. *)
Definition format_1f (d : option float) : M float :=
  match d with
  | Some x => ret x
  | None => raise TypeError
  end.

(** [os.rename(src, dst)] (POSIX): [dst] is replaced. *)
Definition os_rename (src dst : string) : M unit :=
  f ← read_file src;
  match f with
  | Some c => set_fs (fun m => <[dst := c]> (delete src m))
  | None => raise FileNotFoundError
  end.

(** [os.remove(path)]. *)
Definition os_remove (path : string) : M unit :=
  f ← read_file path;
  match f with
  | Some _ => set_fs (delete path)
  | None => raise FileNotFoundError
  end.

(** What a failed child process leaves at its output path. *)
Definition write_partial (partial : option file) (dst : string)
    (m : gmap string file) : gmap string file :=
  match partial with
  | Some c => <[dst := c]> m
  | None => m
  end.

(** [subprocess.run([... dst], check=True)] with the outcome [p]. *)
Definition run_checked (p : proc) (dst : string) : M unit :=
  match p with
  | Exit0 out => set_fs (<[dst := out]>)
  | ExitFail partial => set_fs (write_partial partial dst);; raise CalledProcessError
  end.

Definition out_of_fuel {A} : M A := fun w => (OutOfFuel, w).

(** ** The script *)

(** The parsed command line. *)
Record args : Type := {
  input_video : string;
  output_video : string;
  thai_file : option string       (* --thai_file, None when not given *)
}.

(** Line 206. *)
Definition manual_file : string := "english_for_translation.txt".

(** What both translation functions return: the translated text, or
    their input when the request raised ([except Exception: return text]). *)
Definition translated_or_input (response : option text) (input : text) : text :=
  match response with
  | Some translated_text => translated_text
  | None => input
  end.

Section Script.

Variable T : tools.

(** Lines 33-36. *)
Definition extract_audio (video_path audio_path : string) : M unit :=
  video ← read_file video_path;
  emit (Extract video_path audio_path);;
  run_checked (ffmpeg_extract T video) audio_path.

(** Lines 38-57: the text of the first result, [""] when there is none or
    on any exception. *)
Definition transcribe_audio (audio_path : string) : M text :=
  audio ← read_file audio_path;
  emit (Transcribe audio_path);;
  mret (match funasr_generate T audio with
        | Some (transcribed_text :: _) => transcribed_text
        | _ => []
        end).

(** Lines 59-79: the input text comes back on any failure. *)
Definition translate_text (t : text) (target_lang : string) : M text :=
  emit (Translate "zh" target_lang);;
  mret (translated_or_input (google_translate T "zh" target_lang t) t).

(** Lines 131-152. *)
Definition translate_english_to_thai_google (english_text : text) : M text :=
  emit (Translate "en" "th");;
  mret (translated_or_input (google_translate T "en" "th" english_text) english_text).

(** Lines 81-92: one retry, whose failure is not caught. *)
Definition text_to_speech (t : text) (tts_path : string) : M unit :=
  emit (Synthesize tts_path);;
  match gtts_save T t with
  | Some audio => set_fs (<[tts_path := audio]>)
  | None =>
      match gtts_save_retry T t with
      | Some audio => set_fs (<[tts_path := audio]>)
      | None => raise gTTSError
      end
  end.

(** Lines 94-103: [None] when the probe fails. *)
Definition get_video_duration (video_path : string) : M (option float) :=
  video ← read_file video_path;
  emit (Probe video_path);;
  mret (ffprobe_duration T video).

(** Lines 105-114. *)
Definition get_audio_duration (audio_path : string) : M (option float) :=
  audio ← read_file audio_path;
  emit (Probe audio_path);;
  mret (ffprobe_duration T audio).

(** Lines 126-129. *)
Definition replace_audio (video_path audio_path output_path : string) : M unit :=
  video ← read_file video_path;
  audio ← read_file audio_path;
  emit (Mux video_path audio_path output_path);;
  run_checked (ffmpeg_mux T video audio) output_path.

(** Lines 207-208: [open(path, 'w', encoding='utf-8')] and [f.write(t)]. *)
Definition write_text (path : string) (t : text) : M unit :=
  emit (WriteText path t);;
  set_fs (<[path := TextFile t]>).

(** Step 4, lines 194-212.  [None] is the early [return] of line 212. *)
Definition thai_translation (a : args) (english_text : text) : M (option text) :=
  manual ← match thai_file a with
           | Some path => if String.eqb path "" then mret None else read_file path
           | None => mret None
           end;
  match thai_file a, manual with
  | Some path, Some content =>
      print (MsgUsingManual path);;
      match content with
      | TextFile t => mret (Some (strip t))
      | MediaFile _ => raise UnicodeDecodeError
      end
  | _, _ =>
      print MsgTranslating;;
      thai_text ← translate_english_to_thai_google english_text;
      if negb (has_thai thai_text) then
        print MsgTranslateFailed;;
        write_text manual_file english_text;;
        print (MsgSavedTo manual_file);;
        print MsgPleaseTranslate;;
        print (MsgRunAgain (input_video a) (output_video a));;
        mret None
      else mret (Some thai_text)
  end.

(** Step 5, lines 221-232: probe the video, synthesize, probe the audio,
    compute the speed factor. *)
Definition synthesize (a : args) (thai_text : text) (thai_mp3 : string)
  : M (option float * float) :=
  print MsgConverting;;
  video_duration ← get_video_duration (input_video a);
  d ← format_1f video_duration;
  print (MsgVideoDuration d);;
  text_to_speech thai_text thai_mp3;;
  audio_duration ← get_audio_duration thai_mp3;
  d ← format_1f audio_duration;
  print (MsgInitialDuration d);;
  let speed_factor := calculate_optimal_speed video_duration audio_duration in
  print (MsgSpeedFactor speed_factor);;
  mret (video_duration, speed_factor).

(** Lines 242-268 inside [main]: the chain and the line printed with it. *)
Definition plan_filter (fuel : nat) (speed_factor : float) : M (list float) :=
  match build_filter_chain fuel speed_factor with
  | Some filter_chain =>
      print (if fgt speed_factor two || flt speed_factor half
             then MsgChained filter_chain
             else MsgSingle filter_chain);;
      mret filter_chain
  | None => out_of_fuel
  end.

(** Lines 293-316: truncation to the video duration. *)
Definition truncate_audio (video_duration : float) (thai_mp3 : string) : M unit :=
  let temp_truncate := thai_mp3 +:+ ".truncate" in
  try_except_cpe
    (os_rename thai_mp3 temp_truncate;;
     src ← read_file temp_truncate;
     emit (Trim video_duration temp_truncate thai_mp3);;
     run_checked (ffmpeg_trim T video_duration src) thai_mp3;;
     os_remove temp_truncate;;
     final_audio_duration ← get_audio_duration thai_mp3;
     d ← format_1f final_audio_duration;
     print (MsgTruncatedDuration d))
    (print MsgTruncationFailed;;
     print MsgUsingAdjusted;;
     os_rename temp_truncate thai_mp3).

(** Lines 281-316: reprobe, compare with the video, truncate if the audio
    is still more than a second too long. *)
Definition verify_duration (video_duration : option float) (speed_factor : float)
    (thai_mp3 : string) : M unit :=
  final_audio_duration ← get_audio_duration thai_mp3;
  d ← format_1f final_audio_duration;
  print (MsgFinalDuration d);;
  match final_audio_duration, video_duration with
  | Some fa, Some vd =>
      if truthy (Some fa) && truthy (Some vd) && fgt (fabs (fsub fa vd)) one then
        print (MsgStillDiffers fa vd);;
        print (MsgFactorApplied speed_factor);;
        print (MsgDifference (fabs (fsub fa vd)));;
        if fgt fa (fadd vd one) then
          print MsgTruncating;;
          truncate_audio vd thai_mp3
        else mret tt
      else mret tt
  | _, _ => mret tt
  end.

(** Lines 322-340: the rubberband fallback. *)
Definition rubberband_fallback (speed_factor : float) (temp_mp3 thai_mp3 : string)
  : M unit :=
  try_except_cpe
    (src ← read_file temp_mp3;
     emit (Filter (Rubberband speed_factor) temp_mp3 thai_mp3);;
     run_checked (ffmpeg_filter T (Rubberband speed_factor) src) thai_mp3;;
     os_remove temp_mp3;;
     final_audio_duration ← get_audio_duration thai_mp3;
     d ← format_1f final_audio_duration;
     print (MsgRubberbandDuration d))
    (print MsgRubberbandFailed;;
     print MsgUsingOriginal;;
     os_rename temp_mp3 thai_mp3).

(** Lines 234-342: the speed adjustment. *)
Definition adjust_speed (fuel : nat) (video_duration : option float)
    (speed_factor : float)
    (thai_mp3 : string) : M unit :=
  if fne speed_factor one then
    print MsgAdjusting;;
    let temp_mp3 := thai_mp3 +:+ ".temp" in
    os_rename thai_mp3 temp_mp3;;
    filter_str ← plan_filter fuel speed_factor;
    try_except_cpe
      (src ← read_file temp_mp3;
       emit (Filter (Atempo filter_str) temp_mp3 thai_mp3);;
       run_checked (ffmpeg_filter T (Atempo filter_str) src) thai_mp3;;
       os_remove temp_mp3;;
       verify_duration video_duration speed_factor thai_mp3)
      (print MsgAdjustFailed;;
       print MsgTryingRubberband;;
       rubberband_fallback speed_factor temp_mp3 thai_mp3)
  else print MsgNoAdjustment.

(** Steps 1 to 3, lines 165-191: the English text of the video's speech.
    [tmpdir] is the directory [tempfile.TemporaryDirectory()] created. *)
Definition english_transcript (a : args) (tmpdir : string) : M text :=
  let audio_wav := tmpdir +:+ "/audio.wav" in
  extract_audio (input_video a) audio_wav;;
  chinese_text ← transcribe_audio audio_wav;
  translate_text chinese_text "en".

(** Lines 164-362, the body of the [with tempfile.TemporaryDirectory()]
    block. *)
Definition main (fuel : nat) (a : args) (tmpdir : string) : M unit :=
  let thai_mp3 := tmpdir +:+ "/thai.mp3" in
  english_text ← english_transcript a tmpdir;
  thai ← thai_translation a english_text;
  match thai with
  | None => mret tt
  | Some thai_text =>
      '(video_duration, speed_factor) ← synthesize a thai_text thai_mp3;
      adjust_speed fuel video_duration speed_factor thai_mp3;;
      replace_audio (input_video a) thai_mp3 (output_video a)
  end.

End Script.

(** ** Vocabulary of the properties *)

(** The rational a float stands for (0 for zeros, infinities and NaN). *)
Definition float_value (x : float) : Q :=
  match x with
  | S754_finite s m e =>
      (if s then - inject_Z (Zpos m) else inject_Z (Zpos m)) * 2 ^ e
  | _ => 0
  end.

(** A speed factor in (0, oo): a positive finite float, normal or
    subnormal, in the canonical form every binary64 value has. *)
Definition positive_finite (x : float) : Prop :=
  exists (m : positive) (e : Z),
    x = S754_finite false m e /\ bounded prec emax m e = true.

(** A float that is zero, negative or minus infinity. *)
Definition nonpositive (x : float) : Prop :=
  match x with
  | S754_zero _ | S754_infinity true | S754_finite true _ _ => True
  | _ => False
  end.

(** The overall rate of a chain: the product of its stages. *)
Definition chain_product (filter_chain : list float) : Q :=
  fold_right Qmult 1 (map float_value filter_chain).

(** Tolerance of the comparison of a chain's product with the factor:
    [1e-6]. *)
Definition tolerance : Q := 1 # 1000000.

(** The range of one atempo stage, [0.5 <= stage <= 2.0]. *)
Definition in_atempo_range (stage : float) : Prop :=
  SFleb half stage = true /\ SFleb stage two = true.

Fixpoint pow2 (n : nat) : Q :=
  match n with
  | O => 1
  | S n' => 2 * pow2 n'
  end.

(** Loop iterations that suffice for a positive factor: the binary
    logarithm of the factor, or of its inverse, rounded up. *)
Definition log_bound (speed_factor : Q) : nat :=
  Z.to_nat (Z.max (Z.log2_up (Qceiling speed_factor))
                  (Z.log2_up (Qceiling (/ speed_factor)))).

(** The tests of lines 285 and 291 pass: both durations are truthy, they
    differ by more than a second, and the audio is more than a second
    longer than the video. *)
Definition still_too_long (final_audio_duration video_duration : float) : bool :=
  truthy (Some final_audio_duration) && truthy (Some video_duration) &&
  fgt (fabs (fsub final_audio_duration video_duration)) one &&
  fgt final_audio_duration (fadd video_duration one).

(** No manual translation file is used: none was given, or the path is
    empty, or no such file exists (line 195). *)
Definition no_manual_translation (a : args) (m : gmap string file) : Prop :=
  match thai_file a with
  | None => True
  | Some path => path = "" \/ m !! path = None
  end.

(** A text of whitespace only. *)
Definition all_space (ws : text) : Prop := Forall (fun c => is_space c = true) ws.

(** Neither the first nor the last character is whitespace. *)
Definition trimmed (t : text) : Prop :=
  match t with c :: _ => is_space c = false | [] => True end /\
  match rev t with c :: _ => is_space c = false | [] => True end.

(** How a step that formats a probed duration ends. *)
Definition formatted (d : option float) : result unit :=
  match d with
  | Some _ => Val tt
  | None => Raise TypeError
  end.

(** [m] changes no path outside [P]. *)
Definition keeps {A} (P : string -> Prop) (m : M A) : Prop :=
  forall (w : world) (path : string),
    ~ P path -> fs (snd (m w)) !! path = fs w !! path.

(** [m] never ends with the exception [e]. *)
Definition never_raises {A} (e : exn) (m : M A) : Prop :=
  forall w : world, fst (m w) <> Raise e.

(** The files the adjustment works on: the track and its two temporary
    names. *)
Definition adjustment_path (thai_mp3 path : string) : Prop :=
  path = thai_mp3 \/ path = thai_mp3 +:+ ".temp" \/ path = thai_mp3 +:+ ".truncate".

(** The files a run may write: the two files of the temporary directory,
    the temporary names of the adjustment, the text saved for manual
    translation and the output video. *)
Definition main_path (a : args) (tmpdir : string) (path : string) : Prop :=
  path = tmpdir +:+ "/audio.wav" \/
  adjustment_path (tmpdir +:+ "/thai.mp3") path \/
  path = manual_file \/
  path = output_video a.

(** ** Sample runs *)

Definition demo_video : file := MediaFile [Byte.x00].
Definition demo_wav : file := MediaFile [Byte.x10].
Definition demo_tts : file := MediaFile [Byte.x01].
Definition demo_adjusted : file := MediaFile [Byte.x02].
Definition demo_partial : file := MediaFile [Byte.xff].

Definition demo_chinese : text := [0x4F60; 0x597D]%N.
Definition demo_english : text := [0x68; 0x69]%N.
Definition demo_thai : text := [0x0E2A; 0x0E27; 0x0E31; 0x0E2A; 0x0E14; 0x0E35]%N.

(** A run in which extraction, transcription, synthesis and muxing work,
    and the translation API, the probe and the two audio programs behave
    as given. *)
Definition demo_tools (translate : string -> string -> text -> option text)
    (probe : option file -> option float)
    (filter : audio_filter -> option file -> proc)
    (trim : float -> option file -> proc) : tools :=
  {| ffmpeg_extract := fun _ => Exit0 demo_wav;
     funasr_generate := fun _ => Some [demo_chinese];
     google_translate := translate;
     gtts_save := fun _ => Some demo_tts;
     gtts_save_retry := fun _ => Some demo_tts;
     ffprobe_duration := probe;
     ffmpeg_filter := filter;
     ffmpeg_trim := trim;
     ffmpeg_mux := fun _ _ => Exit0 demo_video |}.

(** The translation API answers. *)
Definition translate_ok (source target : string) (t : text) : option text :=
  if String.eqb target "th" then Some demo_thai else Some demo_english.

(** The translation API is unreachable or no key is set. *)
Definition translate_down (source target : string) (t : text) : option text := None.

(** Video of 10 s, synthesized speech of 35 s, 12 s after the rate
    change. *)
Definition probe_ok (f : option file) : option float :=
  match f with
  | Some (MediaFile [Byte.x00]) => Some (float_of_Z 10)
  | Some (MediaFile [Byte.x01]) => Some (float_of_Z 35)
  | Some (MediaFile [Byte.x02]) => Some (float_of_Z 12)
  | _ => None
  end.

(** The adjusted track cannot be probed. *)
Definition probe_adjusted_fails (f : option file) : option float :=
  match f with
  | Some (MediaFile [Byte.x00]) => Some (float_of_Z 10)
  | Some (MediaFile [Byte.x01]) => Some (float_of_Z 35)
  | _ => None
  end.

(** Only the video can be probed. *)
Definition probe_video_only (f : option file) : option float :=
  match f with
  | Some (MediaFile [Byte.x00]) => Some (float_of_Z 10)
  | _ => None
  end.

Definition probe_fails (f : option file) : option float := None.

(** Every probe reads 0.0. *)
Definition probe_zero (f : option file) : option float := Some zero.

Definition filter_ok (f : audio_filter) (src : option file) : proc := Exit0 demo_adjusted.

Definition filter_fails (f : audio_filter) (src : option file) : proc :=
  ExitFail (Some demo_partial).

Definition trim_fails (duration : float) (src : option file) : proc :=
  ExitFail (Some demo_partial).

Definition demo_args : args :=
  {| input_video := "in.mp4"; output_video := "out.mp4"; thai_file := None |}.

Definition demo_tmpdir : string := "/tmp/t".
Definition demo_thai_mp3 : string := "/tmp/t/thai.mp3".

(** 3.5, the quotient of 35 s of speech and 10 s of video, and its
    chain. *)
Definition demo_factor : float := fdiv (float_of_Z 35) (float_of_Z 10).
Definition demo_chain : list float := [two; fdiv demo_factor two].

(** The world at the start of a run, after steps 1 to 3, after step 4 and
    after the synthesis. *)
Definition demo_start : world :=
  {| fs := {[ "in.mp4" := demo_video ]}; log := [] |}.

Definition demo_transcribed : world :=
  {| fs := <["/tmp/t/audio.wav" := demo_wav]> (fs demo_start);
     log := [Extract "in.mp4" "/tmp/t/audio.wav"; Transcribe "/tmp/t/audio.wav";
             Translate "zh" "en"] |}.

Definition demo_translated : world :=
  {| fs := fs demo_transcribed;
     log := log demo_transcribed ++ [Print MsgTranslating; Translate "en" "th"] |}.

Definition demo_synthesized : world :=
  {| fs := <[demo_thai_mp3 := demo_tts]> (fs demo_translated); log := [] |}.

(** Further outcomes of the external programs. *)
Definition demo_stretched : file := MediaFile [Byte.x03].
Definition demo_trimmed : file := MediaFile [Byte.x04].

(** As [probe_ok], with 11 s for the rubberband output and 10 s for the
    trimmed track. *)
Definition probe_all (f : option file) : option float :=
  match f with
  | Some (MediaFile [Byte.x00]) => Some (float_of_Z 10)
  | Some (MediaFile [Byte.x01]) => Some (float_of_Z 35)
  | Some (MediaFile [Byte.x02]) => Some (float_of_Z 12)
  | Some (MediaFile [Byte.x03]) => Some (float_of_Z 11)
  | Some (MediaFile [Byte.x04]) => Some (float_of_Z 10)
  | _ => None
  end.

(** The atempo call fails, the rubberband call works. *)
Definition filter_rubberband_only (f : audio_filter) (src : option file) : proc :=
  match f with
  | Atempo _ => ExitFail (Some demo_partial)
  | Rubberband _ => Exit0 demo_stretched
  end.

Definition trim_ok (duration : float) (src : option file) : proc := Exit0 demo_trimmed.

(** The tools [T] with an extraction that fails. *)
Definition without_extraction (T : tools) : tools :=
  {| ffmpeg_extract := fun _ => ExitFail None;
     funasr_generate := funasr_generate T;
     google_translate := google_translate T;
     gtts_save := gtts_save T;
     gtts_save_retry := gtts_save_retry T;
     ffprobe_duration := ffprobe_duration T;
     ffmpeg_filter := ffmpeg_filter T;
     ffmpeg_trim := ffmpeg_trim T;
     ffmpeg_mux := ffmpeg_mux T |}.

(** A run with a manual translation: the file exists and holds no Thai
    character at all. *)
Definition demo_manual_args : args :=
  {| input_video := "in.mp4"; output_video := "out.mp4";
     thai_file := Some "thai_translation.txt" |}.

Definition demo_manual_start : world :=
  {| fs := <["thai_translation.txt" := TextFile ([0x20] ++ demo_english ++ [0x0A])%N]>
             (fs demo_start);
     log := [] |}.

Definition demo_manual_transcribed : world :=
  {| fs := <["/tmp/t/audio.wav" := demo_wav]> (fs demo_manual_start);
     log := [Extract "in.mp4" "/tmp/t/audio.wav"; Transcribe "/tmp/t/audio.wav";
             Translate "zh" "en"] |}.

(** Durations whose quotient overflows: the largest power of two and the
    smallest positive binary64 number. *)
Definition demo_huge : float := S754_finite false 4503599627370496 971.
Definition demo_tiny : float := S754_finite false 1 (-1074).

(** * Properties *)

(** ** Powers of two *)

Lemma pow2_pos (n : nat) : 0 < pow2 n.
Proof. induction n as [|n IH]; simpl; lra. Qed.

Lemma pow2_inject (n : nat) : inject_Z (2 ^ Z.of_nat n) == pow2 n.
Proof.
  induction n as [|n IH].
  - reflexivity.
  - rewrite Nat2Z.inj_succ, Z.pow_succ_r by lia.
    rewrite inject_Z_mult, IH. simpl. reflexivity.
Qed.

Lemma pow2_mono (n m : nat) : (n <= m)%nat -> pow2 n <= pow2 m.
Proof.
  induction 1 as [|m Hle IH]; [lra|].
  simpl. pose proof (pow2_pos m). lra.
Qed.

(** Every integer is at most two to the power of its rounded-up binary
    logarithm. *)
Lemma le_pow2_log2_up (a : Z) : inject_Z a <= pow2 (Z.to_nat (Z.log2_up a)).
Proof.
  rewrite <- pow2_inject, Z2Nat.id by apply Z.log2_up_nonneg.
  rewrite <- Zle_Qle.
  destruct (Z_lt_le_dec 0 a) as [Hpos|Hnonpos].
  - apply Z.log2_log2_up_spec, Hpos.
  - rewrite Z.log2_up_nonpos by assumption. simpl. lia.
Qed.

Lemma factor_le_pow2_bound (f : Q) : f <= pow2 (log_bound f).
Proof.
  unfold log_bound.
  apply Qle_trans with (inject_Z (Qceiling f)); [apply Qle_ceiling|].
  apply Qle_trans with (pow2 (Z.to_nat (Z.log2_up (Qceiling f))));
    [apply le_pow2_log2_up|].
  apply pow2_mono, Z2Nat.inj_le; try apply Z.log2_up_nonneg.
  - etransitivity; [apply Z.log2_up_nonneg | apply Z.le_max_l].
  - apply Z.le_max_l.
Qed.

Lemma inverse_le_pow2_bound (f : Q) : 0 < f -> 1 <= f * pow2 (log_bound f).
Proof.
  intros Hf.
  assert (Hinv : / f <= pow2 (log_bound f)).
  { unfold log_bound.
    apply Qle_trans with (inject_Z (Qceiling (/ f))); [apply Qle_ceiling|].
    apply Qle_trans with (pow2 (Z.to_nat (Z.log2_up (Qceiling (/ f)))));
      [apply le_pow2_log2_up|].
    apply pow2_mono, Z2Nat.inj_le; try apply Z.log2_up_nonneg.
    - etransitivity; [apply Z.log2_up_nonneg | apply Z.le_max_r].
    - apply Z.le_max_r. }
  assert (E : 1 == f * / f) by (field; lra).
  rewrite E. apply Qmult_le_l; assumption.
Qed.

(** ** Division of a binary64 number by 2.0 and by 0.5 *)

Local Open Scope Z_scope.

Lemma div_eucl_mul (a b : Z) : 0 < b -> Z.div_eucl (a * b) b = (a, 0).
Proof.
  intros Hb.
  pose proof (Z_div_mult a b ltac:(lia)) as Hd.
  pose proof (Z_mod_mult a b) as Hm.
  unfold Z.div, Z.modulo in *.
  destruct (Z.div_eucl (a * b) b) as [q r]. simpl in *. congruence.
Qed.


(** Rounding an exact even mantissa of 54 bits: one shift. *)
Lemma round_exact_54 (s : bool) (m : positive) (E : Z) :
  digits2_pos m = 53%positive -> -1075 <= E ->
  binary_round_aux prec emax s (Zpos m~0) E loc_Exact =
    if E + 1 <=? 971 then S754_finite s m (E + 1) else S754_infinity s.
Proof.
  intros Hd HE.
  unfold binary_round_aux, shr_fexp.
  cbn [Zdigits2 digits2_pos]. rewrite Hd.
  change (Z.pos (Pos.succ 53)) with 54.
  unfold fexp, emin, prec, emax.
  replace (Z.max (54 + E - 53) (3 - 1024 - 53) - E) with 1 by lia.
  cbn [shr shr_record_of_loc SpecFloat.iter_pos shr_1 orb shr_m loc_of_shr_record round_nearest_even].
  cbn [Zdigits2]. rewrite Hd.
  replace (Z.max (53 + (E + 1) - 53) (3 - 1024 - 53) - (E + 1)) with 0 by lia.
  cbn [shr shr_record_of_loc shr_m]. reflexivity.
Qed.

(** Rounding an exact mantissa that is already canonical: no shift. *)
Lemma round_exact_canonical (s : bool) (m : positive) (E : Z) :
  canonical_mantissa prec emax m E = true ->
  binary_round_aux prec emax s (Zpos m) E loc_Exact =
    if E <=? 971 then S754_finite s m E else S754_infinity s.
Proof.
  intros Hc. unfold canonical_mantissa in Hc. apply Z.eqb_eq in Hc.
  unfold binary_round_aux, shr_fexp.
  cbn [Zdigits2]. rewrite Hc, Z.sub_diag.
  cbn [shr shr_record_of_loc shr_m loc_of_shr_record round_nearest_even].
  cbn [Zdigits2]. rewrite Hc, Z.sub_diag.
  cbn [shr shr_record_of_loc shr_m]. reflexivity.
Qed.

Lemma div_two (m : positive) (e : Z) :
  digits2_pos m = 53%positive -> -1072 <= e -> e <= 972 ->
  fdiv (S754_finite false m e) two = S754_finite false m (e - 1).
Proof.
  intros Hd He1 He2.
  unfold fdiv, SFdiv, two, SFdiv_core_binary.
  cbn [Zdigits2]. rewrite Hd.
  change (Zpos (digits2_pos 4503599627370496)) with 53.
  unfold fexp, emin, prec, emax.
  replace (Z.min (Z.max (53 + e - (53 + -51) - 53) (3 - 1024 - 53)) (e - -51))
    with (e - 2) by lia.
  replace (e - -51 - (e - 2)) with 53 by lia.
  cbv iota.
  rewrite Z.shiftl_mul_pow2 by lia.
  change (2 ^ 53) with (2 * 4503599627370496).
  rewrite Z.mul_assoc, div_eucl_mul by lia.
  change (new_location 4503599627370496 0) with loc_Exact.
  replace (Z.pos m * 2) with (Z.pos m~0) by lia.
  rewrite round_exact_54 by (assumption || lia).
  replace (e - 2 + 1) with (e - 1) by lia.
  destruct (Z.leb_spec (e - 1) 971); [reflexivity | lia].
Qed.


Lemma div_half_normal (m : positive) (e : Z) :
  digits2_pos m = 53%positive -> -1074 <= e -> e <= 970 ->
  fdiv (S754_finite false m e) half = S754_finite false m (e + 1).
Proof.
  intros Hd He1 He2.
  unfold fdiv, SFdiv, half, SFdiv_core_binary.
  cbn [Zdigits2]. rewrite Hd.
  change (Zpos (digits2_pos 4503599627370496)) with 53.
  unfold fexp, emin, prec, emax.
  replace (Z.min (Z.max (53 + e - (53 + -53) - 53) (3 - 1024 - 53)) (e - -53))
    with e by lia.
  replace (e - -53 - e) with 53 by lia.
  cbv iota.
  rewrite Z.shiftl_mul_pow2 by lia.
  change (2 ^ 53) with (2 * 4503599627370496).
  rewrite Z.mul_assoc, div_eucl_mul by lia.
  change (new_location 4503599627370496 0) with loc_Exact.
  replace (Z.pos m * 2) with (Z.pos m~0) by lia.
  rewrite round_exact_54 by (assumption || lia).
  destruct (Z.leb_spec (e + 1) 971); [reflexivity | lia].
Qed.

Lemma div_half_subnormal (m : positive) (e : Z) :
  (Zpos (digits2_pos m) < 53) -> e = -1074 ->
  fdiv (S754_finite false m e) half = S754_finite false m~0 e.
Proof.
  intros Hd ->.
  unfold fdiv, SFdiv, half, SFdiv_core_binary.
  cbn [Zdigits2].
  change (Zpos (digits2_pos 4503599627370496)) with 53.
  unfold fexp, emin, prec, emax.
  replace (Z.min (Z.max (Z.pos (digits2_pos m) + -1074 - (53 + -53) - 53) (3 - 1024 - 53)) (-1074 - -53))
    with (-1074) by lia.
  change (-1074 - -53 - -1074) with 53.
  cbv iota.
  rewrite Z.shiftl_mul_pow2 by lia.
  change (2 ^ 53) with (2 * 4503599627370496).
  rewrite Z.mul_assoc, div_eucl_mul by lia.
  change (new_location 4503599627370496 0) with loc_Exact.
  replace (Z.pos m * 2) with (Z.pos m~0) by lia.
  rewrite round_exact_canonical.
  - reflexivity.
  - unfold canonical_mantissa, fexp, emin, prec, emax. cbn [digits2_pos].
    apply Z.eqb_eq. lia.
Qed.

Local Close Scope Z_scope.

(** ** Values and comparisons of positive floats *)

Lemma two_ne_0 : ~ 2 == 0.
Proof. discriminate. Qed.

Lemma digits2_pos_size (m : positive) : digits2_pos m = Pos.size m.
Proof. induction m; simpl; congruence. Qed.

Lemma mantissa_lt (m : positive) :
  inject_Z (Zpos m) < 2 ^ Zpos (digits2_pos m).
Proof.
  rewrite digits2_pos_size.
  pose proof (Pos.size_gt m) as H.
  assert (HZ : (Zpos m < 2 ^ Zpos (Pos.size m))%Z).
  { rewrite <- Pos2Z.inj_pow. apply Pos2Z.pos_lt_pos. exact H. }
  rewrite Zlt_Qlt in HZ. rewrite Zpower_Qpower in HZ by lia. exact HZ.
Qed.

Lemma mantissa_ge (m : positive) :
  2 ^ (Zpos (digits2_pos m) - 1) <= inject_Z (Zpos m).
Proof.
  rewrite digits2_pos_size.
  pose proof (Pos.size_le m) as H.
  assert (HZ : (2 ^ Zpos (Pos.size m) <= 2 * Zpos m)%Z).
  { rewrite <- Pos2Z.inj_pow. change (2 * Zpos m)%Z with (Zpos m~0).
    apply Pos2Z.pos_le_pos. exact H. }
  rewrite Zle_Qle in HZ. rewrite Zpower_Qpower in HZ by lia.
  rewrite inject_Z_mult in HZ.
  rewrite Qpower_minus by exact two_ne_0.
  change (2 ^ 1) with 2.
  change (inject_Z 2) with 2 in HZ.
  set (p := 2 ^ Z.pos (Pos.size m)) in *.
  set (q := inject_Z (Z.pos m)) in *.
  clearbody p q. unfold Qdiv. change (/ 2) with (1 # 2). lra.
Qed.

Lemma bounded_canonical (m : positive) (e : Z) :
  bounded prec emax m e = true ->
  (e <= 971)%Z /\
  ((Zpos (digits2_pos m) = 53 /\ -1074 <= e)%Z \/
   (Zpos (digits2_pos m) < 53 /\ e = -1074)%Z).
Proof.
  unfold bounded, canonical_mantissa, fexp, emin, prec, emax.
  intros H. apply andb_prop in H. destruct H as [Hc He].
  apply Z.eqb_eq in Hc. apply Z.leb_le in He. lia.
Qed.

Lemma pow2_pos_Q (e : Z) : 0 < 2 ^ e.
Proof. apply Qpower_0_lt. reflexivity. Qed.

(** A canonical positive float lies below [2^(e+53)]; a normal one lies
    at or above [2^(e+52)]. *)
Lemma value_lt (m : positive) (e : Z) :
  bounded prec emax m e = true ->
  float_value (S754_finite false m e) < 2 ^ (e + 53).
Proof.
  intros Hb. apply bounded_canonical in Hb. destruct Hb as [_ Hd].
  simpl. rewrite Qpower_plus by exact two_ne_0.
  rewrite (Qmult_comm (2 ^ e)).
  apply Qmult_lt_compat_r; [apply pow2_pos_Q|].
  apply Qlt_le_trans with (2 ^ Zpos (digits2_pos m)); [apply mantissa_lt|].
  apply Qpower_le_compat_l; [lia | discriminate].
Qed.

Lemma value_ge (m : positive) (e : Z) :
  bounded prec emax m e = true -> (-1074 < e)%Z ->
  2 ^ (e + 52) <= float_value (S754_finite false m e).
Proof.
  intros Hb He. apply bounded_canonical in Hb. destruct Hb as [_ Hd].
  assert (Hd53 : Zpos (digits2_pos m) = 53%Z) by lia.
  simpl. rewrite Qpower_plus by exact two_ne_0.
  rewrite (Qmult_comm (2 ^ e)).
  apply Qmult_le_compat_r; [|apply Qlt_le_weak, pow2_pos_Q].
  pose proof (mantissa_ge m) as H. rewrite Hd53 in H. exact H.
Qed.

Lemma value_pos (m : positive) (e : Z) :
  0 < float_value (S754_finite false m e).
Proof.
  simpl. apply Qmult_lt_0_compat; [reflexivity | apply pow2_pos_Q].
Qed.

(** Comparison of canonical positive floats is comparison of their
    values. *)
Lemma compare_value (m1 m2 : positive) (e1 e2 : Z) :
  bounded prec emax m1 e1 = true -> bounded prec emax m2 e2 = true ->
  SFcompare (S754_finite false m1 e1) (S754_finite false m2 e2) =
    Some (float_value (S754_finite false m1 e1) ?= float_value (S754_finite false m2 e2)).
Proof.
  intros H1 H2. unfold SFcompare. f_equal. symmetry.
  pose proof (bounded_canonical _ _ H1) as [_ Hc1].
  pose proof (bounded_canonical _ _ H2) as [_ Hc2].
  destruct (Z.compare_spec e1 e2) as [-> | Hlt | Hgt].
  - rewrite Pos.compare_cont_spec. simpl Pos.switch_Eq.
    pose proof (pow2_pos_Q e2) as Hp.
    destruct (Pos.compare_spec m1 m2) as [-> | Hm | Hm].
    + apply Qeq_alt. reflexivity.
    + apply Qlt_alt. simpl. apply Qmult_lt_compat_r; [exact Hp|].
      rewrite <- Zlt_Qlt. apply Pos2Z.pos_lt_pos. exact Hm.
    + apply Qgt_alt. simpl. apply Qmult_lt_compat_r; [exact Hp|].
      rewrite <- Zlt_Qlt. apply Pos2Z.pos_lt_pos. exact Hm.
  - apply Qlt_alt.
    apply Qlt_le_trans with (2 ^ (e1 + 53)); [apply value_lt; exact H1|].
    apply Qle_trans with (2 ^ (e2 + 52)); [|apply value_ge; [exact H2 | lia]].
    apply Qpower_le_compat_l; [lia | discriminate].
  - apply Qgt_alt.
    apply Qlt_le_trans with (2 ^ (e2 + 53)); [apply value_lt; exact H2|].
    apply Qle_trans with (2 ^ (e1 + 52)); [|apply value_ge; [exact H1 | lia]].
    apply Qpower_le_compat_l; [lia | discriminate].
Qed.

Lemma ltb_value (x y : spec_float) :
  positive_finite x -> positive_finite y ->
  (SFltb x y = true <-> float_value x < float_value y).
Proof.
  intros (m1 & e1 & -> & H1) (m2 & e2 & -> & H2).
  unfold SFltb. rewrite (compare_value _ _ _ _ H1 H2).
  rewrite Qlt_alt.
  destruct (_ ?= _); split; congruence.
Qed.

Lemma leb_value (x y : spec_float) :
  positive_finite x -> positive_finite y ->
  (SFleb x y = true <-> float_value x <= float_value y).
Proof.
  intros (m1 & e1 & -> & H1) (m2 & e2 & -> & H2).
  unfold SFleb. rewrite (compare_value _ _ _ _ H1 H2).
  rewrite Qle_alt.
  destruct (_ ?= _); split; congruence.
Qed.

Lemma positive_finite_two : positive_finite two.
Proof. exists 4503599627370496%positive, (-51)%Z. split; reflexivity. Qed.

Lemma positive_finite_half : positive_finite half.
Proof. exists 4503599627370496%positive, (-53)%Z. split; reflexivity. Qed.

Lemma positive_finite_one : positive_finite one.
Proof. exists 4503599627370496%positive, (-52)%Z. split; reflexivity. Qed.

Lemma value_two : float_value two == 2.
Proof. reflexivity. Qed.

Lemma value_half : float_value half == 1 # 2.
Proof. reflexivity. Qed.

Lemma value_one : float_value one == 1.
Proof. reflexivity. Qed.

Lemma bounded_intro (m : positive) (e : Z) :
  (e <= 971)%Z ->
  ((Zpos (digits2_pos m) = 53 /\ -1074 <= e)%Z \/
   (Zpos (digits2_pos m) < 53 /\ e = -1074)%Z) ->
  bounded prec emax m e = true.
Proof.
  intros He Hd.
  unfold bounded, canonical_mantissa, fexp, emin, prec, emax.
  apply andb_true_intro. split; [apply Z.eqb_eq | apply Z.leb_le]; lia.
Qed.

(** Halving a float above 2.0 is exact. *)
Lemma div_two_exact (x : spec_float) :
  positive_finite x -> 2 < float_value x ->
  positive_finite (fdiv x two) /\
  float_value (fdiv x two) == float_value x * (1 # 2).
Proof.
  intros (m & e & -> & Hb) Hgt.
  pose proof (value_lt m e Hb) as Hlt.
  assert (He : (-52 < e)%Z).
  { assert (H : 2 ^ 1 < 2 ^ (e + 53)) by (change (2 ^ 1) with 2; lra).
    apply Qpower_lt_compat_l_inv in H; [lia | reflexivity]. }
  pose proof (bounded_canonical m e Hb) as [He971 Hd].
  assert (Hd53 : digits2_pos m = 53%positive).
  { destruct Hd as [[Hd _] | [_ Hd]]; [congruence | lia]. }
  rewrite div_two by (assumption || lia).
  split.
  - exists m, (e - 1)%Z. split; [reflexivity|].
    apply bounded_intro; [lia|]. left. rewrite Hd53. lia.
  - simpl. rewrite Qpower_minus by exact two_ne_0.
    change (2 ^ 1) with 2. field.
Qed.

(** Doubling a float below 0.5 is exact. *)
Lemma div_half_exact (x : spec_float) :
  positive_finite x -> float_value x < 1 # 2 ->
  positive_finite (fdiv x half) /\
  float_value (fdiv x half) == float_value x * 2.
Proof.
  intros (m & e & -> & Hb) Hlt.
  pose proof (bounded_canonical m e Hb) as [He971 Hd].
  destruct Hd as [[Hd He] | [Hd ->]].
  - assert (Hd53 : digits2_pos m = 53%positive) by congruence.
    assert (He' : (e < -53)%Z).
    { destruct (Z.eq_dec e (-1074)%Z) as [->|Hne]; [lia|].
      pose proof (value_ge m e Hb ltac:(lia)) as Hge.
      assert (H : 2 ^ (e + 52) < 2 ^ (-1)) by (change (2 ^ (-1)) with (1 # 2); lra).
      apply Qpower_lt_compat_l_inv in H; [lia | reflexivity]. }
    rewrite div_half_normal by (assumption || lia).
    split.
    + exists m, (e + 1)%Z. split; [reflexivity|].
      apply bounded_intro; [lia|]. left. rewrite Hd53. lia.
    + simpl. rewrite Qpower_plus by exact two_ne_0.
      change (2 ^ 1) with 2. ring.
  - rewrite div_half_subnormal by (assumption || reflexivity).
    split.
    + exists (m~0)%positive, (-1074)%Z. split; [reflexivity|].
      apply bounded_intro; [lia|]. cbn [digits2_pos].
      destruct (Z.eq_dec (Zpos (Pos.succ (digits2_pos m))) 53%Z); [left | right]; lia.
    + simpl. change (inject_Z (Zpos m~0)) with (inject_Z (2 * Zpos m)).
      rewrite inject_Z_mult. change (inject_Z 2) with 2. ring.
Qed.

(** The two tests of the loops, read on values. *)
Lemma fgt_spec (x y : float) :
  positive_finite x -> positive_finite y ->
  if fgt x y then float_value y < float_value x
  else float_value x <= float_value y.
Proof.
  intros Hx Hy. unfold fgt.
  pose proof (ltb_value y x Hy Hx) as H.
  destruct (SFltb y x).
  - apply H. reflexivity.
  - apply Qnot_lt_le. intros Hlt. apply H in Hlt. discriminate.
Qed.

Lemma flt_spec (x y : float) :
  positive_finite x -> positive_finite y ->
  if flt x y then float_value x < float_value y
  else float_value y <= float_value x.
Proof. intros Hx Hy. exact (fgt_spec y x Hy Hx). Qed.

Lemma positive_finite_value (x : float) : positive_finite x -> 0 < float_value x.
Proof. intros (m & e & -> & _). apply value_pos. Qed.

(** ** The two loops *)

(** What the first loop computes from a factor that is at most
    [2^(k+1)]: it stops within [k] iterations, each of which appended one
    stage [2.0], and the remaining factor times [2^n] is the input. *)
Lemma speed_up_loop_spec (k : nat) :
  forall (fuel : nat) (x : float) (chain : list float),
    positive_finite x -> float_value x <= pow2 (S k) -> (k < fuel)%nat ->
    exists (r : float) (n : nat),
      speed_up_loop fuel x chain = Some (r, chain ++ repeat two n) /\
      (n <= k)%nat /\ float_value x == float_value r * pow2 n /\
      positive_finite r /\ float_value r <= 2 /\
      ((0 < n)%nat -> 1 < float_value r) /\ (n = O -> r = x).
Proof.
  induction k as [|k IH]; intros fuel x chain Hx Hle Hfuel;
    (destruct fuel as [|fuel]; [lia|]); cbn [speed_up_loop pow2] in *;
    pose proof (fgt_spec x two Hx positive_finite_two) as Htest;
    destruct (fgt x two); rewrite value_two in Htest.
  - lra.
  - exists x, O. rewrite app_nil_r.
    repeat split; try assumption; try lia; cbn [pow2]; try lra.
  - destruct (div_two_exact x Hx Htest) as [Hh Ev].
    set (h := fdiv x two) in *.
    destruct (IH fuel h (chain ++ [two])) as
      (r & n & Hrun & Hn & Hprod & Hr & Hr2 & Hgt & Hzero);
      [exact Hh | cbn [pow2]; lra | lia |].
    exists r, (S n). rewrite Hrun, <- app_assoc. cbn [repeat app pow2].
    repeat split; try assumption; try lia; try lra.
    intros _. destruct n as [|n]; [rewrite (Hzero eq_refl); lra | apply Hgt; lia].
  - exists x, O. rewrite app_nil_r.
    repeat split; try assumption; try lia; cbn [pow2]; try lra.
Qed.

(** The second loop, from a factor that is at least [2^-(k+1)]. *)
Lemma slow_down_loop_spec (k : nat) :
  forall (fuel : nat) (x : float) (chain : list float),
    positive_finite x -> 1 <= float_value x * pow2 (S k) -> (k < fuel)%nat ->
    exists (r : float) (n : nat),
      slow_down_loop fuel x chain = Some (r, chain ++ repeat half n) /\
      (n <= k)%nat /\ float_value r == float_value x * pow2 n /\
      positive_finite r /\ (1 # 2) <= float_value r /\
      ((0 < n)%nat -> float_value r < 1) /\ (n = O -> r = x).
Proof.
  induction k as [|k IH]; intros fuel x chain Hx Hle Hfuel;
    (destruct fuel as [|fuel]; [lia|]); cbn [slow_down_loop pow2] in *;
    pose proof (flt_spec x half Hx positive_finite_half) as Htest;
    destruct (flt x half); rewrite value_half in Htest.
  - lra.
  - exists x, O. rewrite app_nil_r.
    repeat split; try assumption; try lia; cbn [pow2]; try lra.
  - destruct (div_half_exact x Hx Htest) as [Hh Ev].
    set (d := fdiv x half) in *.
    destruct (IH fuel d (chain ++ [half])) as
      (r & n & Hrun & Hn & Hprod & Hr & Hr0 & Hlt & Hzero);
      [exact Hh | cbn [pow2]; rewrite Ev; lra | lia |].
    exists r, (S n). rewrite Hrun, <- app_assoc. cbn [repeat app pow2].
    repeat split; try assumption; try lia; try lra.
    + rewrite Hprod, Ev. ring.
    + intros _. destruct n as [|n]; [rewrite (Hzero eq_refl); lra | apply Hlt; lia].
  - exists x, O. rewrite app_nil_r.
    repeat split; try assumption; try lia; cbn [pow2]; try lra.
Qed.

(** ** The chain *)

Lemma chain_product_app (l1 l2 : list float) :
  chain_product (l1 ++ l2) == chain_product l1 * chain_product l2.
Proof.
  unfold chain_product. induction l1 as [|x l1 IH]; cbn [map fold_right app]; [ring|].
  rewrite IH. ring.
Qed.

Lemma chain_product_single (x : float) : chain_product [x] == float_value x.
Proof. unfold chain_product. cbn [map fold_right]. ring. Qed.

Lemma chain_product_repeat_two (n : nat) : chain_product (repeat two n) == pow2 n.
Proof.
  unfold chain_product. induction n as [|n IH]; cbn [repeat map fold_right pow2];
    [reflexivity|].
  rewrite IH, value_two. reflexivity.
Qed.

Lemma chain_product_repeat_half (n : nat) :
  chain_product (repeat half n) * pow2 n == 1.
Proof.
  unfold chain_product. induction n as [|n IH]; cbn [repeat map fold_right pow2];
    [reflexivity|].
  rewrite value_half.
  transitivity (fold_right Qmult 1 (map float_value (repeat half n)) * pow2 n);
    [ring | exact IH].
Qed.

Lemma in_atempo_range_value (x : float) :
  positive_finite x -> (1 # 2) <= float_value x -> float_value x <= 2 ->
  in_atempo_range x.
Proof.
  intros Hx Hlo Hhi. unfold in_atempo_range. split.
  - apply (leb_value half x positive_finite_half Hx). rewrite value_half. exact Hlo.
  - apply (leb_value x two Hx positive_finite_two). rewrite value_two. exact Hhi.
Qed.

Lemma Forall_repeat_range (x : float) (n : nat) :
  in_atempo_range x -> Forall in_atempo_range (repeat x n).
Proof. intros Hx. induction n; cbn [repeat]; constructor; assumption. Qed.

(** The chain of a positive finite factor, given fuel above [log_bound]:
    it is computed, its product is the factor, its stages are within the
    range of atempo, and it has at most [log_bound + 1] stages. *)
Lemma build_filter_chain_spec (fuel : nat) (f : float) :
  positive_finite f -> (log_bound (float_value f) < fuel)%nat ->
  exists chain : list float,
    build_filter_chain fuel f = Some chain /\
    chain_product chain == float_value f /\
    Forall in_atempo_range chain /\
    chain <> [] /\
    (length chain <= S (log_bound (float_value f)))%nat.
Proof.
  intros Hf Hfuel. unfold build_filter_chain.
  pose proof (positive_finite_value f Hf) as Hpos.
  set (v := float_value f) in *.
  pose proof (fgt_spec f two Hf positive_finite_two) as Hfast.
  fold v in Hfast.
  destruct (fgt f two); rewrite value_two in Hfast.
  - destruct (speed_up_loop_spec (log_bound v) fuel f []) as
      (r & n & Hrun & Hn & Hprod & Hr & Hr2 & Hgt & Hzero); [exact Hf | | lia |].
    { pose proof (factor_le_pow2_bound v). pose proof (pow2_pos (log_bound v)).
      fold v. cbn [pow2]. lra. }
    fold v in Hprod.
    assert (Hn0 : (0 < n)%nat).
    { destruct n; [|lia]. rewrite (Hzero eq_refl) in Hr2. fold v in Hr2. lra. }
    specialize (Hgt Hn0).
    pose proof (fgt_spec r one Hr positive_finite_one) as Hlast.
    rewrite Hrun. destruct (fgt r one); rewrite value_one in Hlast; [|lra].
    cbn [app]. eexists. split; [reflexivity|].
    repeat split.
    + rewrite chain_product_app, chain_product_repeat_two, chain_product_single.
      rewrite Hprod. ring.
    + apply Forall_app. split.
      * apply Forall_repeat_range. split; reflexivity.
      * constructor; [apply in_atempo_range_value; [exact Hr | lra | lra] | constructor].
    + intros Hnil. apply app_eq_nil in Hnil. destruct Hnil; discriminate.
    + rewrite length_app, repeat_length. cbn [length]. lia.
  - pose proof (flt_spec f half Hf positive_finite_half) as Hslow.
    fold v in Hslow.
    destruct (flt f half); rewrite value_half in Hslow.
    + destruct (slow_down_loop_spec (log_bound v) fuel f []) as
        (r & n & Hrun & Hn & Hprod & Hr & Hr0 & Hlt & Hzero); [exact Hf | | lia |].
      { pose proof (inverse_le_pow2_bound v Hpos). pose proof (pow2_pos (log_bound v)).
        fold v. cbn [pow2].
        assert (0 <= v * pow2 (log_bound v)) by lra. lra. }
      fold v in Hprod.
      assert (Hn0 : (0 < n)%nat).
      { destruct n; [|lia]. rewrite (Hzero eq_refl) in Hr0. fold v in Hr0. lra. }
      specialize (Hlt Hn0).
      pose proof (flt_spec r one Hr positive_finite_one) as Hlast.
      rewrite Hrun. destruct (flt r one); rewrite value_one in Hlast; [|lra].
      cbn [app]. eexists. split; [reflexivity|].
      repeat split.
      * rewrite chain_product_app, chain_product_single.
        pose proof (chain_product_repeat_half n) as Hhalf.
        rewrite Hprod.
        transitivity (v * (chain_product (repeat half n) * pow2 n)); [ring|].
        rewrite Hhalf. ring.
      * apply Forall_app. split.
        -- apply Forall_repeat_range. split; reflexivity.
        -- constructor; [apply in_atempo_range_value; [exact Hr | lra | lra] | constructor].
      * intros Hnil. apply app_eq_nil in Hnil. destruct Hnil; discriminate.
      * rewrite length_app, repeat_length. cbn [length]. lia.
    + eexists. split; [reflexivity|].
      repeat split.
      * apply chain_product_single.
      * constructor; [apply in_atempo_range_value; [exact Hf | exact Hslow | exact Hfast]
                     | constructor].
      * discriminate.
      * cbn [length]. lia.
Qed.

(** For every positive finite binary64 number [log_bound] is at most
    1074: the value lies between [2^-1074] and [2^1024]. *)
Lemma log_bound_float (x : float) :
  positive_finite x -> (log_bound (float_value x) <= 1074)%nat.
Proof.
  intros (m & e & -> & Hb).
  pose proof (value_lt m e Hb) as Hlt.
  pose proof (bounded_canonical m e Hb) as [He971 Hd].
  set (v := float_value (S754_finite false m e)) in *.
  assert (Hhi : v <= inject_Z (2 ^ 1024)).
  { rewrite Zpower_Qpower by lia. change (inject_Z 2) with 2.
    apply Qlt_le_weak. apply Qlt_le_trans with (2 ^ (e + 53)); [exact Hlt|].
    apply Qpower_le_compat_l; [lia | discriminate]. }
  assert (Hlo : / v <= inject_Z (2 ^ 1074)).
  { rewrite Zpower_Qpower by lia. change (inject_Z 2) with 2.
    assert (Hge : 2 ^ (-1074) <= v).
    { unfold v. cbn [float_value].
      apply Qle_trans with (1 * 2 ^ e).
      - rewrite Qmult_1_l. apply Qpower_le_compat_l; [lia | discriminate].
      - apply Qmult_le_compat_r; [|apply Qlt_le_weak, pow2_pos_Q].
        change 1 with (inject_Z 1). rewrite <- Zle_Qle. lia. }
    pose proof (pow2_pos_Q (-1074)) as Hp.
    assert (Hv : 0 < v) by lra.
    apply Qle_shift_inv_r; [exact Hv|].
    assert (E : 2 ^ 1074 * 2 ^ (-1074) == 1).
    { rewrite <- Qpower_plus by exact two_ne_0. reflexivity. }
    rewrite <- E. apply Qmult_le_l; [apply pow2_pos_Q | exact Hge]. }
  apply Qceiling_resp_le in Hhi, Hlo. rewrite Qceiling_Z in Hhi, Hlo.
  apply Z.log2_up_le_mono in Hhi, Hlo.
  rewrite Z.log2_up_pow2 in Hhi, Hlo by lia.
  unfold log_bound. fold v. lia.
Qed.

(** C1.  For every speed factor in (0, oo) other than 1.0, the atempo
    chain built in [main] is computed and the product of its stages equals
    the factor within [1e-6]: dividing by 2.0 and by 0.5 is exact in
    binary64, so the product of the stage values is the factor itself. *)
Theorem chain_product_matches_factor (speed_factor : float) (fuel : nat) :
  positive_finite speed_factor -> fne speed_factor one = true ->
  (log_bound (float_value speed_factor) < fuel)%nat ->
  exists filter_chain : list float,
    build_filter_chain fuel speed_factor = Some filter_chain /\
    chain_product filter_chain == float_value speed_factor /\
    Qabs (chain_product filter_chain - float_value speed_factor) <= tolerance.
Proof.
  intros Hpos _ Hfuel.
  destruct (build_filter_chain_spec fuel speed_factor Hpos Hfuel)
    as (chain & Hrun & Hprod & _).
  exists chain. repeat split; try assumption.
  assert (E : chain_product chain - float_value speed_factor == 0)
    by (rewrite Hprod; ring).
  rewrite E. unfold tolerance. apply Qabs_case; intros; lra.
Qed.

Lemma positive_finite_demo_factor : positive_finite demo_factor.
Proof. exists 7881299347898368%positive, (-51)%Z. split; reflexivity. Qed.

Lemma chain_product_matches_factor_witness :
  exists filter_chain : list float,
    build_filter_chain 4 demo_factor = Some filter_chain /\
    chain_product filter_chain == float_value demo_factor /\
    Qabs (chain_product filter_chain - float_value demo_factor) <= tolerance.
Proof.
  apply (chain_product_matches_factor demo_factor 4).
  - exact positive_finite_demo_factor.
  - reflexivity.
  - vm_compute. lia.
Defined.

(** C4.  For every speed factor above 0, the chain is computed and every
    stage of it lies in the closed interval [0.5, 2.0]. *)
Theorem stages_within_atempo_range (speed_factor : float) (fuel : nat) :
  positive_finite speed_factor ->
  (log_bound (float_value speed_factor) < fuel)%nat ->
  exists filter_chain : list float,
    build_filter_chain fuel speed_factor = Some filter_chain /\
    forall stage : float,
      In stage filter_chain -> SFleb half stage = true /\ SFleb stage two = true.
Proof.
  intros Hpos Hfuel.
  destruct (build_filter_chain_spec fuel speed_factor Hpos Hfuel)
    as (chain & Hrun & _ & Hrange & _).
  exists chain. split; [assumption|].
  intros stage Hin. rewrite Forall_forall in Hrange.
  apply Hrange. apply list_elem_of_In. exact Hin.
Qed.

Lemma stages_within_atempo_range_witness :
  exists filter_chain : list float,
    build_filter_chain 5 (fdiv (float_of_Z 1) (float_of_Z 10)) = Some filter_chain /\
    forall stage : float,
      In stage filter_chain -> SFleb half stage = true /\ SFleb stage two = true.
Proof.
  apply (stages_within_atempo_range (fdiv (float_of_Z 1) (float_of_Z 10)) 5).
  - exists 7205759403792794%positive, (-56)%Z. split; reflexivity.
  - vm_compute. lia.
Defined.

(** C5.  For every finite speed factor above 0 both decomposition loops
    of the chain terminate: with fuel above [log_bound], the binary
    logarithm of the factor or of its inverse rounded up, each loop
    returns, and it has run at most [log_bound] iterations (one appended
    stage each).  Finiteness is needed: plus infinity is above 0 as well,
    and there the first loop never exits. *)
Theorem decomposition_loops_terminate (speed_factor : float) (fuel : nat) :
  positive_finite speed_factor ->
  (log_bound (float_value speed_factor) < fuel)%nat ->
  (exists (remaining_factor : float) (filter_chain : list float),
      speed_up_loop fuel speed_factor [] = Some (remaining_factor, filter_chain) /\
      (length filter_chain <= log_bound (float_value speed_factor))%nat) /\
  (exists (remaining_factor : float) (filter_chain : list float),
      slow_down_loop fuel speed_factor [] = Some (remaining_factor, filter_chain) /\
      (length filter_chain <= log_bound (float_value speed_factor))%nat).
Proof.
  intros Hf Hfuel.
  pose proof (positive_finite_value speed_factor Hf) as Hpos.
  set (v := float_value speed_factor) in *.
  split.
  - destruct (speed_up_loop_spec (log_bound v) fuel speed_factor [])
      as (r & n & Hrun & Hn & _); [exact Hf | | lia |].
    { pose proof (factor_le_pow2_bound v).
      pose proof (pow2_pos (log_bound v)). fold v. cbn [pow2]. lra. }
    exists r, (repeat two n). split; [exact Hrun|].
    rewrite repeat_length. exact Hn.
  - destruct (slow_down_loop_spec (log_bound v) fuel speed_factor [])
      as (r & n & Hrun & Hn & _); [exact Hf | | lia |].
    { pose proof (inverse_le_pow2_bound v Hpos).
      pose proof (pow2_pos (log_bound v)). fold v. cbn [pow2].
      assert (0 <= v * pow2 (log_bound v)) by lra. lra. }
    exists r, (repeat half n). split; [exact Hrun|].
    rewrite repeat_length. exact Hn.
Qed.

Lemma decomposition_loops_terminate_witness :
  (exists (remaining_factor : float) (filter_chain : list float),
      speed_up_loop 8 (float_of_Z 100) [] = Some (remaining_factor, filter_chain) /\
      (length filter_chain <= log_bound (float_value (float_of_Z 100)))%nat) /\
  (exists (remaining_factor : float) (filter_chain : list float),
      slow_down_loop 8 (float_of_Z 100) [] = Some (remaining_factor, filter_chain) /\
      (length filter_chain <= log_bound (float_value (float_of_Z 100)))%nat).
Proof.
  apply (decomposition_loops_terminate (float_of_Z 100) 8).
  - exists 7036874417766400%positive, (-46)%Z. split; reflexivity.
  - vm_compute. lia.
Defined.

(** A remaining factor above 2.0 that halving leaves as it is keeps the
    first loop running for ever. *)
Lemma speed_up_loop_fixed_point (x : float) :
  fgt x two = true -> fdiv x two = x ->
  forall (fuel : nat) (chain : list float), speed_up_loop fuel x chain = None.
Proof.
  intros Htest Hdiv. induction fuel as [|fuel IH]; intros chain; [reflexivity|].
  cbn [speed_up_loop]. rewrite Htest, Hdiv. apply IH.
Qed.

(** C5, the factor the claim's "every factor above 0" includes and the
    loops do not handle.  Plus infinity is above 0; it is the factor
    [calculate_optimal_speed] returns when the quotient of the two
    durations overflows (speech of 2^1023 s, video of 2^-1074 s); on it
    the loop of lines 247-249 returns for no number of iterations, and no
    chain is ever built. *)
Lemma infinite_factor_loop_never_exits :
  fgt (S754_infinity false) zero = true /\
  ~ positive_finite (S754_infinity false) /\
  positive_finite demo_huge /\ positive_finite demo_tiny /\
  calculate_optimal_speed (Some demo_tiny) (Some demo_huge) = S754_infinity false /\
  (forall (fuel : nat) (remaining_factor : float) (filter_chain : list float),
      speed_up_loop fuel (S754_infinity false) [] <>
        Some (remaining_factor, filter_chain)) /\
  (forall fuel : nat, build_filter_chain fuel (S754_infinity false) = None).
Proof.
  assert (Hloop : forall (fuel : nat) (chain : list float),
             speed_up_loop fuel (S754_infinity false) chain = None)
    by (apply speed_up_loop_fixed_point; reflexivity).
  repeat split.
  - intros (m & e & H & _). discriminate H.
  - exists 4503599627370496%positive, 971%Z. split; reflexivity.
  - exists 1%positive, (-1074)%Z. split; reflexivity.
  - intros fuel r chain. rewrite Hloop. discriminate.
  - intros fuel. unfold build_filter_chain.
    change (fgt (S754_infinity false) two) with true. cbv iota.
    rewrite Hloop. reflexivity.
Qed.

(** In binary64 terms: 1075 units of fuel are enough for every positive
    finite factor. *)
Lemma chain_of_every_positive_float (speed_factor : float) :
  positive_finite speed_factor ->
  exists filter_chain : list float,
    build_filter_chain 1075 speed_factor = Some filter_chain /\
    chain_product filter_chain == float_value speed_factor /\
    Forall in_atempo_range filter_chain /\
    (length filter_chain <= 1075)%nat.
Proof.
  intros Hf. pose proof (log_bound_float speed_factor Hf) as Hb.
  destruct (build_filter_chain_spec 1075 speed_factor Hf ltac:(lia))
    as (chain & Hrun & Hprod & Hrange & _ & Hlen).
  exists chain. repeat split; try assumption. lia.
Qed.

Lemma chain_of_every_positive_float_witness :
  exists filter_chain : list float,
    build_filter_chain 1075 demo_factor = Some filter_chain /\
    chain_product filter_chain == float_value demo_factor /\
    Forall in_atempo_range filter_chain /\
    (length filter_chain <= 1075)%nat.
Proof.
  apply (chain_of_every_positive_float demo_factor).
  exact positive_finite_demo_factor.
Defined.

(** The chain of 100.0, by evaluation. *)
Example chain_100 :
  option_map (map (fun x => Qred (float_value x)))
    (build_filter_chain 10 (float_of_Z 100)) =
  Some [2; 2; 2; 2; 2; 2; 25 # 16].
Proof. vm_compute. reflexivity. Qed.

(** ** The default speed factor *)

Lemma leb_zero_not_gt (a : float) : SFleb a zero = true -> fgt a zero = false.
Proof. destruct a as [s | s | | s m e]; try destruct s; cbv; congruence. Qed.

(** C2, as the script has it.  [calculate_optimal_speed] returns exactly
    1.5 whenever a duration is absent, the video duration is zero, or the
    audio duration is zero or negative. *)
Theorem default_speed_when_unknown (video_duration audio_duration : option float) :
  video_duration = None \/ audio_duration = None \/
  (exists v : float, video_duration = Some v /\ feq v zero = true) \/
  (exists a : float, audio_duration = Some a /\ SFleb a zero = true) ->
  calculate_optimal_speed video_duration audio_duration = one_and_half.
Proof.
  intros H. unfold calculate_optimal_speed.
  destruct video_duration as [v|], audio_duration as [a|]; try reflexivity.
  destruct H as [H | [H | [(v' & Hv & Hz) | (a' & Ha & Hneg)]]];
    try discriminate.
  - injection Hv as <-. unfold truthy, fne. unfold feq in Hz.
    rewrite Hz. reflexivity.
  - injection Ha as <-.
    rewrite (leb_zero_not_gt a Hneg), Bool.andb_false_r. reflexivity.
Qed.

Lemma default_speed_when_unknown_witness :
  calculate_optimal_speed (Some (float_of_Z 10)) (Some (float_of_Z (-3))) =
    one_and_half.
Proof.
  apply (default_speed_when_unknown (Some (float_of_Z 10)) (Some (float_of_Z (-3)))).
  right. right. right. exists (float_of_Z (-3)). split; reflexivity.
Defined.

(** A negative video duration is truthy, and only the audio duration is
    compared with 0: with a video duration of -10 s and an audio duration
    of 20 s the factor is -2.0, not 1.5. *)
Lemma negative_video_duration_not_default :
  flt (float_of_Z (-10)) zero = true /\
  calculate_optimal_speed (Some (float_of_Z (-10))) (Some (float_of_Z 20)) =
    float_of_Z (-2) /\
  calculate_optimal_speed (Some (float_of_Z (-10))) (Some (float_of_Z 20)) <>
    one_and_half.
Proof. repeat split; try reflexivity. discriminate. Qed.

(** With an audio duration above 0 and a video duration other than zero
    the factor is the quotient, whatever the sign of the video duration. *)
Lemma speed_is_quotient (v a : float) :
  fne v zero = true -> fgt a zero = true ->
  calculate_optimal_speed (Some v) (Some a) = fdiv a v.
Proof.
  intros Hv Ha. unfold calculate_optimal_speed, truthy.
  assert (Hta : fne a zero = true).
  { destruct a as [s | s | | s m e]; try destruct s; cbv in Ha |- *; congruence. }
  rewrite Hv, Hta, Ha. reflexivity.
Qed.

Lemma speed_is_quotient_witness :
  calculate_optimal_speed (Some (float_of_Z (-10))) (Some (float_of_Z 20)) =
    fdiv (float_of_Z 20) (float_of_Z (-10)).
Proof.
  apply (speed_is_quotient (float_of_Z (-10)) (float_of_Z 20)); reflexivity.
Defined.

(** ** Factors for which the chain is never built *)

(** The first loop never exits on plus infinity. *)
Lemma speed_up_loop_infinity (fuel : nat) :
  forall chain : list float, speed_up_loop fuel (S754_infinity false) chain = None.
Proof.
  induction fuel as [|fuel IH]; intros chain; [reflexivity|].
  cbn [speed_up_loop].
  change (fgt (S754_infinity false) two) with true.
  change (fdiv (S754_infinity false) two) with (S754_infinity false).
  apply IH.
Qed.

(** Doubling a float that is zero, negative or minus infinity gives such
    a float again. *)
Lemma div_half_nonpositive (x : float) :
  valid_binary prec emax x = true -> nonpositive x ->
  valid_binary prec emax (fdiv x half) = true /\ nonpositive (fdiv x half).
Proof.
  destruct x as [s | s | | s m e]; cbn [nonpositive valid_binary];
    intros Hb Hn; try destruct s; try contradiction; try (split; [reflexivity | exact I]).
  pose proof (bounded_canonical m e Hb) as [He971 Hd].
  unfold fdiv, SFdiv, half, SFdiv_core_binary.
  cbn [Zdigits2 xorb].
  change (Zpos (digits2_pos 4503599627370496)) with 53%Z.
  unfold fexp, emin, prec, emax.
  replace (Z.min (Z.max (Z.pos (digits2_pos m) + e - (53 + -53) - 53) (3 - 1024 - 53))
             (e - -53))%Z with e by lia.
  replace (e - -53 - e)%Z with 53%Z by lia.
  cbv iota.
  rewrite Z.shiftl_mul_pow2 by lia.
  change (2 ^ 53)%Z with (2 * 4503599627370496)%Z.
  rewrite Z.mul_assoc, div_eucl_mul by lia.
  change (new_location 4503599627370496 0) with loc_Exact.
  replace (Z.pos m * 2)%Z with (Z.pos m~0) by lia.
  destruct Hd as [[Hd He] | [Hd ->]].
  - assert (Hd53 : digits2_pos m = 53%positive) by congruence.
    fold prec emax. rewrite round_exact_54 by (assumption || lia).
    destruct (Z.leb_spec (e + 1) 971); cbn [nonpositive valid_binary];
      [|split; [reflexivity | exact I]].
    split; [|exact I]. apply bounded_intro; [lia|]. left. rewrite Hd53. lia.
  - fold prec emax. rewrite round_exact_canonical.
    + change (-1074 <=? 971)%Z with true. cbn [nonpositive valid_binary].
      split; [|exact I]. apply bounded_intro; [lia|]. cbn [digits2_pos].
      destruct (Z.eq_dec (Zpos (Pos.succ (digits2_pos m))) 53%Z); [left | right]; lia.
    + unfold canonical_mantissa, fexp, emin, prec, emax. cbn [digits2_pos].
      apply Z.eqb_eq. lia.
Qed.

Lemma nonpositive_lt_half (x : float) : nonpositive x -> flt x half = true.
Proof.
  destruct x as [s | s | | s m e]; cbn [nonpositive]; intros Hn;
    try destruct s; try contradiction; reflexivity.
Qed.

Lemma nonpositive_not_gt_two (x : float) : nonpositive x -> fgt x two = false.
Proof.
  destruct x as [s | s | | s m e]; cbn [nonpositive]; intros Hn;
    try destruct s; try contradiction; reflexivity.
Qed.

(** For a factor that is zero or negative the second loop never exits:
    whatever the fuel, it runs out. *)
Lemma slow_down_loop_diverges (fuel : nat) :
  forall (x : float) (chain : list float),
    valid_binary prec emax x = true -> nonpositive x ->
    slow_down_loop fuel x chain = None.
Proof.
  induction fuel as [|fuel IH]; intros x chain Hv Hn; [reflexivity|].
  cbn [slow_down_loop]. rewrite (nonpositive_lt_half x Hn).
  destruct (div_half_nonpositive x Hv Hn) as [Hv' Hn'].
  apply IH; assumption.
Qed.

Lemma nonpositive_factor_never_planned (fuel : nat) (speed_factor : float) :
  valid_binary prec emax speed_factor = true -> nonpositive speed_factor ->
  build_filter_chain fuel speed_factor = None.
Proof.
  intros Hv Hn. unfold build_filter_chain.
  rewrite (nonpositive_not_gt_two _ Hn), (nonpositive_lt_half _ Hn).
  rewrite (slow_down_loop_diverges fuel _ _ Hv Hn). reflexivity.
Qed.

Lemma nonpositive_factor_never_planned_witness :
  build_filter_chain 2000 (float_of_Z (-2)) = None.
Proof.
  apply (nonpositive_factor_never_planned 2000 (float_of_Z (-2))).
  - reflexivity.
  - exact I.
Defined.
(** ** Paths *)

Lemma append_ne (s t : string) : t <> "" -> s +:+ t <> s.
Proof.
  intros Ht. induction s as [|a s IH]; simpl; [exact Ht|].
  intros H. injection H as H. exact (IH H).
Qed.

Lemma append_inj_l (s t u : string) : s +:+ t = s +:+ u -> t = u.
Proof.
  induction s as [|a s IH]; simpl; [auto|].
  intros H. injection H as H. exact (IH H).
Qed.

Lemma temp_ne (thai_mp3 : string) : thai_mp3 +:+ ".temp" <> thai_mp3.
Proof. apply append_ne. discriminate. Qed.

Lemma truncate_ne (thai_mp3 : string) : thai_mp3 +:+ ".truncate" <> thai_mp3.
Proof. apply append_ne. discriminate. Qed.

Lemma lookup_write_partial_ne (o : option file) (dst p : string)
    (m : gmap string file) :
  dst <> p -> write_partial o dst m !! p = m !! p.
Proof.
  intros Hne. destruct o as [c|]; simpl; [|reflexivity].
  apply lookup_insert_ne, Hne.
Qed.

(** ** Running the script *)

Ltac reduce :=
  cbn -[fdiv fadd fsub fabs flt fgt feq fne truthy
        os_rename os_remove get_audio_duration get_video_duration
        truncate_audio rubberband_fallback verify_duration text_to_speech].

Ltac exec :=
  repeat (progress (unfold mbind, M_bind, bind, mret, M_ret, ret, print, emit,
                      read_file, set_fs, raise, out_of_fuel, run_checked; reduce)).

Lemma bind_val {A B} (m : M A) (k : A -> M B) (w w' : world) (a : A) :
  m w = (Val a, w') -> (m ≫= k) w = k a w'.
Proof. intros H. unfold mbind, M_bind, bind. rewrite H. reflexivity. Qed.

Lemma os_rename_run (src dst : string) (c : file) (w : world) :
  fs w !! src = Some c ->
  os_rename src dst w =
    (Val tt, {| fs := <[dst := c]> (delete src (fs w)); log := log w |}).
Proof. intros H. unfold os_rename. exec. rewrite H. reflexivity. Qed.

Lemma os_remove_run (path : string) (c : file) (w : world) :
  fs w !! path = Some c ->
  os_remove path w = (Val tt, {| fs := delete path (fs w); log := log w |}).
Proof. intros H. unfold os_remove. exec. rewrite H. reflexivity. Qed.

Lemma get_video_duration_run (T : tools) (path : string) (w : world) :
  get_video_duration T path w =
    (Val (ffprobe_duration T (fs w !! path)),
     {| fs := fs w; log := log w ++ [Probe path] |}).
Proof. reflexivity. Qed.

Lemma get_audio_duration_run (T : tools) (path : string) (w : world) :
  get_audio_duration T path w =
    (Val (ffprobe_duration T (fs w !! path)),
     {| fs := fs w; log := log w ++ [Probe path] |}).
Proof. reflexivity. Qed.

(** The start of every adjustment (lines 235-268): the track is moved to
    its [.temp] name and the chain is planned. *)
Lemma adjust_speed_start (T : tools) (fuel : nat) (video_duration : option float)
    (speed_factor : float) (thai_mp3 : string) (w : world) (original : file)
    (filter_chain : list float) :
  fs w !! thai_mp3 = Some original ->
  fne speed_factor one = true ->
  build_filter_chain fuel speed_factor = Some filter_chain ->
  adjust_speed T fuel video_duration speed_factor thai_mp3 w =
    try_except_cpe
      (src ← read_file (thai_mp3 +:+ ".temp");
       emit (Filter (Atempo filter_chain) (thai_mp3 +:+ ".temp") thai_mp3);;
       run_checked (ffmpeg_filter T (Atempo filter_chain) src) thai_mp3;;
       os_remove (thai_mp3 +:+ ".temp");;
       verify_duration T video_duration speed_factor thai_mp3)
      (print MsgAdjustFailed;;
       print MsgTryingRubberband;;
       rubberband_fallback T speed_factor (thai_mp3 +:+ ".temp") thai_mp3)
      {| fs := <[thai_mp3 +:+ ".temp" := original]> (delete thai_mp3 (fs w));
         log := log w ++
                [Print MsgAdjusting;
                 Print (if fgt speed_factor two || flt speed_factor half
                        then MsgChained filter_chain
                        else MsgSingle filter_chain)] |}.
Proof.
  intros Hc Hsf Hchain.
  unfold adjust_speed. rewrite Hsf.
  unfold mbind at 1 2 3, M_bind at 1 2 3, bind at 1 2 3.
  unfold print at 1, emit at 1.
  rewrite (os_rename_run _ _ original) by exact Hc.
  unfold plan_filter. rewrite Hchain. exec.
  rewrite <- !app_assoc. reflexivity.
Qed.

(** ** The speed adjustment *)

(** C6.  When the speed factor equals 1.0 the adjustment makes no call of
    a rate-shift filter at all, so no stage is planned: the only thing it
    does is print one line.  The file system, and with it the synthesized
    track, is handed to the next step as it was. *)
Theorem unit_factor_leaves_track (T : tools) (fuel : nat)
    (video_duration : option float) (speed_factor : float) (thai_mp3 : string)
    (w : world) :
  feq speed_factor one = true ->
  adjust_speed T fuel video_duration speed_factor thai_mp3 w =
    (Val tt, {| fs := fs w; log := log w ++ [Print MsgNoAdjustment] |}).
Proof.
  intros H. unfold adjust_speed, fne. unfold feq in H. rewrite H. reflexivity.
Qed.

Lemma unit_factor_leaves_track_witness :
  adjust_speed (demo_tools translate_ok probe_ok filter_ok trim_fails) 5
      (Some (float_of_Z 10))
      (calculate_optimal_speed (Some (float_of_Z 10)) (Some (float_of_Z 10)))
      demo_thai_mp3
      demo_synthesized =
    (Val tt,
     {| fs := fs demo_synthesized;
        log := log demo_synthesized ++ [Print MsgNoAdjustment] |}).
Proof.
  apply (unit_factor_leaves_track
           (demo_tools translate_ok probe_ok filter_ok trim_fails) 5
           (Some (float_of_Z 10))
           (calculate_optimal_speed (Some (float_of_Z 10)) (Some (float_of_Z 10)))
           demo_thai_mp3
           demo_synthesized).
  reflexivity.
Defined.

Lemma rubberband_fallback_failure (T : tools) (sf : float) (temp_mp3 thai_mp3 : string)
    (c : file) (p : option file) (w : world) :
  thai_mp3 <> temp_mp3 ->
  fs w !! temp_mp3 = Some c ->
  ffmpeg_filter T (Rubberband sf) (Some c) = ExitFail p ->
  rubberband_fallback T sf temp_mp3 thai_mp3 w =
    (Val tt,
     {| fs := <[thai_mp3 := c]> (delete temp_mp3 (write_partial p thai_mp3 (fs w)));
        log := log w ++ [Filter (Rubberband sf) temp_mp3 thai_mp3;
                         Print MsgRubberbandFailed; Print MsgUsingOriginal] |}).
Proof.
  intros Hne Hc Hfail. unfold rubberband_fallback, try_except_cpe. exec.
  rewrite Hc, Hfail. exec.
  rewrite (os_rename_run temp_mp3 thai_mp3 c); reduce.
  - rewrite <- !app_assoc. reflexivity.
  - rewrite lookup_write_partial_ne by exact Hne. exact Hc.
Qed.

(** C7.  If the chained atempo call and the rubberband call both fail,
    the adjustment ends normally and the track is what it was before:
    the original content is back under its path, the [.temp] name is
    gone, no other path has changed, whatever the failed calls left at
    the output path; when no [.temp] file existed before, the whole file
    system is the one before the adjustment. *)
Theorem both_filters_fail_restores_track (T : tools) (fuel : nat)
    (video_duration : option float) (speed_factor : float) (thai_mp3 : string)
    (w : world) (original : file) (filter_chain : list float) (p1 p2 : option file) :
  fs w !! thai_mp3 = Some original ->
  fne speed_factor one = true ->
  build_filter_chain fuel speed_factor = Some filter_chain ->
  ffmpeg_filter T (Atempo filter_chain) (Some original) = ExitFail p1 ->
  ffmpeg_filter T (Rubberband speed_factor) (Some original) = ExitFail p2 ->
  exists w' : world,
    adjust_speed T fuel video_duration speed_factor thai_mp3 w = (Val tt, w') /\
    fs w' !! thai_mp3 = Some original /\
    fs w' !! (thai_mp3 +:+ ".temp") = None /\
    (forall path : string,
        path <> thai_mp3 -> path <> thai_mp3 +:+ ".temp" ->
        fs w' !! path = fs w !! path) /\
    (fs w !! (thai_mp3 +:+ ".temp") = None -> fs w' = fs w).
Proof.
  intros Hc Hsf Hchain H1 H2.
  pose proof (temp_ne thai_mp3) as Hne.
  rewrite (adjust_speed_start T fuel video_duration speed_factor thai_mp3 w
             original filter_chain Hc Hsf Hchain).
  unfold try_except_cpe. exec.
  rewrite lookup_insert_eq, H1. exec.
  erewrite rubberband_fallback_failure; reduce; [| congruence | | eassumption].
  2:{ rewrite lookup_write_partial_ne by congruence. apply lookup_insert_eq. }
  eexists. split; [reflexivity|]. reduce.
  set (m := <[thai_mp3:=original]> _).
  assert (Hthai : m !! thai_mp3 = Some original) by apply lookup_insert_eq.
  assert (Htemp : m !! (thai_mp3 +:+ ".temp") = None).
  { unfold m. rewrite lookup_insert_ne by congruence. apply lookup_delete_eq. }
  assert (Hother : forall path : string,
             path <> thai_mp3 -> path <> thai_mp3 +:+ ".temp" ->
             m !! path = fs w !! path).
  { intros path Hp1 Hp2. unfold m.
    rewrite lookup_insert_ne, lookup_delete_ne by congruence.
    rewrite !lookup_write_partial_ne by congruence.
    rewrite lookup_insert_ne, lookup_delete_ne by congruence. reflexivity. }
  repeat split; try assumption.
  intros Hfresh. apply map_eq. intros path.
  destruct (decide (path = thai_mp3)) as [->|Hp1]; [congruence|].
  destruct (decide (path = thai_mp3 +:+ ".temp")) as [->|Hp2]; [congruence|].
  apply Hother; assumption.
Qed.

Lemma both_filters_fail_restores_track_witness :
  exists w' : world,
    adjust_speed (demo_tools translate_ok probe_ok filter_fails trim_fails) 5
        (Some (float_of_Z 10)) demo_factor demo_thai_mp3 demo_synthesized =
      (Val tt, w') /\
    fs w' !! demo_thai_mp3 = Some demo_tts /\
    fs w' !! (demo_thai_mp3 +:+ ".temp") = None /\
    (forall path : string,
        path <> demo_thai_mp3 -> path <> demo_thai_mp3 +:+ ".temp" ->
        fs w' !! path = fs demo_synthesized !! path) /\
    (fs demo_synthesized !! (demo_thai_mp3 +:+ ".temp") = None ->
     fs w' = fs demo_synthesized).
Proof.
  apply (both_filters_fail_restores_track
           (demo_tools translate_ok probe_ok filter_fails trim_fails) 5
           (Some (float_of_Z 10)) demo_factor demo_thai_mp3 demo_synthesized
           demo_tts demo_chain
           (Some demo_partial) (Some demo_partial)).
  - reflexivity.
  - reflexivity.
  - reflexivity.
  - reflexivity.
  - reflexivity.
Defined.

(** ** The truncation *)

Lemma truncate_audio_failure (T : tools) (vd : float) (thai_mp3 : string)
    (adjusted : file) (p : option file) (w : world) :
  fs w !! thai_mp3 = Some adjusted ->
  ffmpeg_trim T vd (Some adjusted) = ExitFail p ->
  truncate_audio T vd thai_mp3 w =
    (Val tt,
     {| fs := <[thai_mp3 := adjusted]>
                (delete (thai_mp3 +:+ ".truncate")
                   (write_partial p thai_mp3
                      (<[thai_mp3 +:+ ".truncate" := adjusted]>
                         (delete thai_mp3 (fs w)))));
        log := log w ++ [Trim vd (thai_mp3 +:+ ".truncate") thai_mp3;
                         Print MsgTruncationFailed; Print MsgUsingAdjusted] |}).
Proof.
  intros Hc Hfail. pose proof (truncate_ne thai_mp3) as Hne.
  unfold truncate_audio, try_except_cpe. exec.
  rewrite (os_rename_run _ _ adjusted) by exact Hc. reduce.
  rewrite lookup_insert_eq, Hfail. exec.
  rewrite (os_rename_run _ _ adjusted); reduce.
  - rewrite <- !app_assoc. reflexivity.
  - rewrite lookup_write_partial_ne by congruence. apply lookup_insert_eq.
Qed.

(** The run of the adjustment up to the reprobe of line 281, when the
    atempo call succeeds. *)
Lemma adjust_speed_primary_ok (T : tools) (fuel : nat) (video_duration : option float)
    (speed_factor : float) (thai_mp3 : string) (w : world) (original adjusted : file)
    (filter_chain : list float) :
  fs w !! thai_mp3 = Some original ->
  fne speed_factor one = true ->
  build_filter_chain fuel speed_factor = Some filter_chain ->
  ffmpeg_filter T (Atempo filter_chain) (Some original) = Exit0 adjusted ->
  adjust_speed T fuel video_duration speed_factor thai_mp3 w =
    try_except_cpe
      (d ← format_1f (ffprobe_duration T (Some adjusted));
       print (MsgFinalDuration d);;
       match ffprobe_duration T (Some adjusted), video_duration with
       | Some fa, Some vd =>
           if truthy (Some fa) && truthy (Some vd) && fgt (fabs (fsub fa vd)) one then
             print (MsgStillDiffers fa vd);;
             print (MsgFactorApplied speed_factor);;
             print (MsgDifference (fabs (fsub fa vd)));;
             if fgt fa (fadd vd one) then
               print MsgTruncating;;
               truncate_audio T vd thai_mp3
             else mret tt
           else mret tt
       | _, _ => mret tt
       end)
      (print MsgAdjustFailed;;
       print MsgTryingRubberband;;
       rubberband_fallback T speed_factor (thai_mp3 +:+ ".temp") thai_mp3)
      {| fs := delete (thai_mp3 +:+ ".temp")
                 (<[thai_mp3 := adjusted]>
                    (<[thai_mp3 +:+ ".temp" := original]> (delete thai_mp3 (fs w))));
         log := log w ++
                [Print MsgAdjusting;
                 Print (if fgt speed_factor two || flt speed_factor half
                        then MsgChained filter_chain
                        else MsgSingle filter_chain);
                 Filter (Atempo filter_chain) (thai_mp3 +:+ ".temp") thai_mp3;
                 Probe thai_mp3] |}.
Proof.
  intros Hc Hsf Hchain Hok.
  pose proof (temp_ne thai_mp3) as Hne.
  rewrite (adjust_speed_start T fuel video_duration speed_factor thai_mp3 w
             original filter_chain Hc Hsf Hchain).
  unfold try_except_cpe. exec.
  rewrite lookup_insert_eq, Hok. exec.
  rewrite (os_remove_run _ original);
    [|reduce; rewrite lookup_insert_ne by congruence; apply lookup_insert_eq].
  reduce. unfold verify_duration. exec.
  rewrite get_audio_duration_run. reduce.
  rewrite lookup_delete_ne, lookup_insert_eq by congruence.
  rewrite <- !app_assoc. reflexivity.
Qed.

(** C8.  If the trim call fails, the adjustment ends normally, so the run
    goes on to the muxing step, and the speed-adjusted track is back
    unmodified under its path; the [.truncate] and [.temp] names are
    gone and no other path has changed. *)
Theorem truncation_failure_keeps_adjusted_track (T : tools) (fuel : nat)
    (vd speed_factor fa : float) (thai_mp3 : string) (w : world)
    (original adjusted : file) (filter_chain : list float) (p : option file) :
  fs w !! thai_mp3 = Some original ->
  fne speed_factor one = true ->
  build_filter_chain fuel speed_factor = Some filter_chain ->
  ffmpeg_filter T (Atempo filter_chain) (Some original) = Exit0 adjusted ->
  ffprobe_duration T (Some adjusted) = Some fa ->
  still_too_long fa vd = true ->
  ffmpeg_trim T vd (Some adjusted) = ExitFail p ->
  exists w' : world,
    adjust_speed T fuel (Some vd) speed_factor thai_mp3 w = (Val tt, w') /\
    fs w' !! thai_mp3 = Some adjusted /\
    fs w' !! (thai_mp3 +:+ ".truncate") = None /\
    fs w' !! (thai_mp3 +:+ ".temp") = None /\
    (forall path : string,
        path <> thai_mp3 -> path <> thai_mp3 +:+ ".temp" ->
        path <> thai_mp3 +:+ ".truncate" ->
        fs w' !! path = fs w !! path).
Proof.
  intros Hc Hsf Hchain Hok Hprobe Hlong Htrim.
  pose proof (temp_ne thai_mp3) as Hne.
  pose proof (truncate_ne thai_mp3) as Hne2.
  assert (Hne3 : thai_mp3 +:+ ".truncate" <> thai_mp3 +:+ ".temp").
  { intros H. apply append_inj_l in H. discriminate. }
  rewrite (adjust_speed_primary_ok T fuel (Some vd) speed_factor thai_mp3 w
             original adjusted filter_chain Hc Hsf Hchain Hok).
  rewrite Hprobe. unfold try_except_cpe. exec.
  unfold still_too_long in Hlong.
  apply andb_prop in Hlong. destruct Hlong as [Hlong Hcut].
  rewrite Hlong. exec. rewrite Hcut. exec.
  erewrite truncate_audio_failure; reduce; [| | eassumption].
  2:{ rewrite lookup_delete_ne by congruence. apply lookup_insert_eq. }
  eexists. split; [reflexivity|]. reduce.
  repeat split.
  - apply lookup_insert_eq.
  - rewrite lookup_insert_ne by congruence. apply lookup_delete_eq.
  - rewrite lookup_insert_ne, lookup_delete_ne by congruence.
    rewrite lookup_write_partial_ne by congruence.
    rewrite lookup_insert_ne, lookup_delete_ne by congruence.
    apply lookup_delete_eq.
  - intros path Hp1 Hp2 Hp3.
    rewrite lookup_insert_ne, lookup_delete_ne by congruence.
    rewrite lookup_write_partial_ne by congruence.
    rewrite lookup_insert_ne, !lookup_delete_ne by congruence.
    rewrite lookup_insert_ne, lookup_insert_ne, lookup_delete_ne by congruence.
    reflexivity.
Qed.

Lemma truncation_failure_keeps_adjusted_track_witness :
  exists w' : world,
    adjust_speed (demo_tools translate_ok probe_ok filter_ok trim_fails) 5
        (Some (float_of_Z 10)) demo_factor demo_thai_mp3 demo_synthesized =
      (Val tt, w') /\
    fs w' !! demo_thai_mp3 = Some demo_adjusted /\
    fs w' !! (demo_thai_mp3 +:+ ".truncate") = None /\
    fs w' !! (demo_thai_mp3 +:+ ".temp") = None /\
    (forall path : string,
        path <> demo_thai_mp3 -> path <> demo_thai_mp3 +:+ ".temp" ->
        path <> demo_thai_mp3 +:+ ".truncate" ->
        fs w' !! path = fs demo_synthesized !! path).
Proof.
  apply (truncation_failure_keeps_adjusted_track
           (demo_tools translate_ok probe_ok filter_ok trim_fails) 5
           (float_of_Z 10) demo_factor (float_of_Z 12)
           demo_thai_mp3 demo_synthesized demo_tts demo_adjusted
           demo_chain (Some demo_partial)).
  - reflexivity.
  - reflexivity.
  - reflexivity.
  - reflexivity.
  - reflexivity.
  - reflexivity.
  - reflexivity.
Defined.

(** ** The reprobe after the adjustment *)

(** C10, the script at a failed reprobe.  After a successful atempo call,
    if the probe of the adjusted track gives [None], line 282 formats
    [None] with [:.1f]: the adjustment raises [TypeError] before the gate
    of line 285 is reached.  The adjusted track is in place, but the
    exception is not caught, so the run ends there. *)
Theorem failed_reprobe_raises_type_error (T : tools) (fuel : nat)
    (video_duration : option float) (speed_factor : float) (thai_mp3 : string)
    (w : world) (original adjusted : file) (filter_chain : list float) :
  fs w !! thai_mp3 = Some original ->
  fne speed_factor one = true ->
  build_filter_chain fuel speed_factor = Some filter_chain ->
  ffmpeg_filter T (Atempo filter_chain) (Some original) = Exit0 adjusted ->
  ffprobe_duration T (Some adjusted) = None ->
  exists w' : world,
    adjust_speed T fuel video_duration speed_factor thai_mp3 w =
      (Raise TypeError, w') /\
    fs w' !! thai_mp3 = Some adjusted /\
    log w' = log w ++
             [Print MsgAdjusting;
              Print (if fgt speed_factor two || flt speed_factor half
                     then MsgChained filter_chain
                     else MsgSingle filter_chain);
              Filter (Atempo filter_chain) (thai_mp3 +:+ ".temp") thai_mp3;
              Probe thai_mp3].
Proof.
  intros Hc Hsf Hchain Hok Hprobe.
  pose proof (temp_ne thai_mp3) as Hne.
  rewrite (adjust_speed_primary_ok T fuel video_duration speed_factor thai_mp3 w
             original adjusted filter_chain Hc Hsf Hchain Hok).
  rewrite Hprobe. unfold try_except_cpe. exec.
  eexists. split; [reflexivity|]. reduce. split; [|reflexivity].
  rewrite lookup_delete_ne by congruence. apply lookup_insert_eq.
Qed.

Lemma failed_reprobe_raises_type_error_witness :
  exists w' : world,
    adjust_speed (demo_tools translate_ok probe_adjusted_fails filter_ok trim_fails)
        5 (Some (float_of_Z 10)) demo_factor demo_thai_mp3 demo_synthesized =
      (Raise TypeError, w') /\
    fs w' !! demo_thai_mp3 = Some demo_adjusted /\
    log w' = log demo_synthesized ++
             [Print MsgAdjusting;
              Print (if fgt demo_factor two || flt demo_factor half
                     then MsgChained demo_chain
                     else MsgSingle demo_chain);
              Filter (Atempo demo_chain) (demo_thai_mp3 +:+ ".temp")
                demo_thai_mp3;
              Probe demo_thai_mp3].
Proof.
  apply (failed_reprobe_raises_type_error
           (demo_tools translate_ok probe_adjusted_fails filter_ok trim_fails)
           5 (Some (float_of_Z 10)) demo_factor demo_thai_mp3 demo_synthesized
           demo_tts demo_adjusted demo_chain).
  - reflexivity.
  - reflexivity.
  - reflexivity.
  - reflexivity.
  - reflexivity.
Defined.

(** The gate of line 285 for a duration of 0.0: when the reprobe gives
    0.0, or the video duration is 0.0, the adjusted track is kept with no
    comparison and no trim call. *)
Lemma zero_duration_skips_verification (T : tools) (fuel : nat)
    (video_duration : option float) (speed_factor fa : float) (thai_mp3 : string)
    (w : world) (original adjusted : file) (filter_chain : list float) :
  fs w !! thai_mp3 = Some original ->
  fne speed_factor one = true ->
  build_filter_chain fuel speed_factor = Some filter_chain ->
  ffmpeg_filter T (Atempo filter_chain) (Some original) = Exit0 adjusted ->
  ffprobe_duration T (Some adjusted) = Some fa ->
  feq fa zero = true \/
  (exists vd : float, video_duration = Some vd /\ feq vd zero = true) ->
  adjust_speed T fuel video_duration speed_factor thai_mp3 w =
    (Val tt,
     {| fs := delete (thai_mp3 +:+ ".temp")
                (<[thai_mp3 := adjusted]>
                   (<[thai_mp3 +:+ ".temp" := original]> (delete thai_mp3 (fs w))));
        log := log w ++
               [Print MsgAdjusting;
                Print (if fgt speed_factor two || flt speed_factor half
                       then MsgChained filter_chain
                       else MsgSingle filter_chain);
                Filter (Atempo filter_chain) (thai_mp3 +:+ ".temp") thai_mp3;
                Probe thai_mp3;
                Print (MsgFinalDuration fa)] |}).
Proof.
  intros Hc Hsf Hchain Hok Hprobe Hfalsy.
  rewrite (adjust_speed_primary_ok T fuel video_duration speed_factor thai_mp3 w
             original adjusted filter_chain Hc Hsf Hchain Hok).
  rewrite Hprobe. unfold try_except_cpe. exec.
  rewrite <- !app_assoc. simpl app.
  destruct Hfalsy as [Hz | (vd & -> & Hz)].
  - destruct video_duration as [vd|]; [|reflexivity].
    unfold truthy at 1. unfold fne. unfold feq in Hz. rewrite Hz. reflexivity.
  - unfold truthy at 2. unfold fne. unfold feq in Hz.
    rewrite Hz, Bool.andb_false_r. reflexivity.
Qed.

Lemma zero_duration_skips_verification_witness :
  adjust_speed (demo_tools translate_ok probe_zero filter_ok trim_fails) 5
      (Some (float_of_Z 10)) one_and_half demo_thai_mp3 demo_synthesized =
    (Val tt,
     {| fs := delete (demo_thai_mp3 +:+ ".temp")
                (<[demo_thai_mp3 := demo_adjusted]>
                   (<[demo_thai_mp3 +:+ ".temp" := demo_tts]>
                      (delete demo_thai_mp3 (fs demo_synthesized))));
        log := log demo_synthesized ++
               [Print MsgAdjusting;
                Print (if fgt one_and_half two || flt one_and_half half
                       then MsgChained [one_and_half]
                       else MsgSingle [one_and_half]);
                Filter (Atempo [one_and_half]) (demo_thai_mp3 +:+ ".temp")
                  demo_thai_mp3;
                Probe demo_thai_mp3;
                Print (MsgFinalDuration zero)] |}).
Proof.
  apply (zero_duration_skips_verification
           (demo_tools translate_ok probe_zero filter_ok trim_fails) 5
           (Some (float_of_Z 10)) one_and_half zero demo_thai_mp3 demo_synthesized
           demo_tts demo_adjusted [one_and_half]).
  - reflexivity.
  - reflexivity.
  - reflexivity.
  - reflexivity.
  - reflexivity.
  - left. reflexivity.
Defined.

(** ** A failed probe in [main] *)

(** C3, the script at a failed video probe.  When the run has reached
    step 5 and [get_video_duration] returns [None], line 223 formats
    [None] with [:.1f]: [main] raises [TypeError] right after the probe.
    Nothing is synthesized, no speed factor is computed, nothing is
    muxed. *)
Theorem failed_video_probe_aborts_run (T : tools) (fuel : nat) (a : args)
    (tmpdir : string) (w w1 w2 : world) (english_text thai_text : text) :
  english_transcript T a tmpdir w = (Val english_text, w1) ->
  thai_translation T a english_text w1 = (Val (Some thai_text), w2) ->
  ffprobe_duration T (fs w2 !! input_video a) = None ->
  main T fuel a tmpdir w =
    (Raise TypeError,
     {| fs := fs w2;
        log := log w2 ++ [Print MsgConverting; Probe (input_video a)] |}).
Proof.
  intros H13 H4 Hprobe. unfold main.
  rewrite (bind_val _ _ _ _ _ H13), (bind_val _ _ _ _ _ H4).
  unfold synthesize. exec.
  rewrite get_video_duration_run. reduce. rewrite Hprobe. exec.
  rewrite <- !app_assoc. reflexivity.
Qed.

Lemma failed_video_probe_aborts_run_witness :
  main (demo_tools translate_ok probe_fails filter_ok trim_fails) 5 demo_args
      demo_tmpdir demo_start =
    (Raise TypeError,
     {| fs := fs demo_translated;
        log := log demo_translated ++
               [Print MsgConverting; Probe (input_video demo_args)] |}).
Proof.
  apply (failed_video_probe_aborts_run
           (demo_tools translate_ok probe_fails filter_ok trim_fails) 5 demo_args
           demo_tmpdir demo_start demo_transcribed demo_translated
           demo_english demo_thai).
  - reflexivity.
  - reflexivity.
  - reflexivity.
Defined.

(** The same at the probe of the synthesized audio (line 228). *)
Lemma failed_audio_probe_aborts_run (T : tools) (fuel : nat) (a : args)
    (tmpdir : string) (w w1 w2 : world) (english_text thai_text : text)
    (vd : float) (audio : file) :
  english_transcript T a tmpdir w = (Val english_text, w1) ->
  thai_translation T a english_text w1 = (Val (Some thai_text), w2) ->
  ffprobe_duration T (fs w2 !! input_video a) = Some vd ->
  gtts_save T thai_text = Some audio ->
  ffprobe_duration T (Some audio) = None ->
  main T fuel a tmpdir w =
    (Raise TypeError,
     {| fs := <[tmpdir +:+ "/thai.mp3" := audio]> (fs w2);
        log := log w2 ++ [Print MsgConverting; Probe (input_video a);
                          Print (MsgVideoDuration vd);
                          Synthesize (tmpdir +:+ "/thai.mp3");
                          Probe (tmpdir +:+ "/thai.mp3")] |}).
Proof.
  intros H13 H4 Hprobe Htts Haudio. unfold main.
  rewrite (bind_val _ _ _ _ _ H13), (bind_val _ _ _ _ _ H4).
  unfold synthesize. exec.
  rewrite get_video_duration_run. reduce. rewrite Hprobe. exec.
  unfold text_to_speech. exec. rewrite Htts. exec.
  rewrite get_audio_duration_run. reduce.
  rewrite lookup_insert_eq, Haudio. exec.
  rewrite <- !app_assoc. reflexivity.
Qed.

Lemma failed_audio_probe_aborts_run_witness :
  main (demo_tools translate_ok probe_video_only filter_ok trim_fails) 5
      demo_args demo_tmpdir demo_start =
    (Raise TypeError,
     {| fs := <[demo_tmpdir +:+ "/thai.mp3" := demo_tts]> (fs demo_translated);
        log := log demo_translated ++
               [Print MsgConverting; Probe (input_video demo_args);
                Print (MsgVideoDuration (float_of_Z 10));
                Synthesize (demo_tmpdir +:+ "/thai.mp3");
                Probe (demo_tmpdir +:+ "/thai.mp3")] |}).
Proof.
  apply (failed_audio_probe_aborts_run _ 5 demo_args demo_tmpdir demo_start
           demo_transcribed demo_translated demo_english demo_thai (float_of_Z 10)
           demo_tts);
    reflexivity.
Defined.

(** ** No Thai text *)

(** C9.  When no manual translation file is used and the text that comes
    back from the English-to-Thai translation holds no character of
    U+0E00..U+0E7F, [main] writes the English text to
    ["english_for_translation.txt"], prints its instructions and returns:
    nothing is synthesized, probed, filtered or muxed. *)
Theorem no_thai_text_saves_english_and_returns (T : tools) (fuel : nat)
    (a : args) (tmpdir : string) (w w1 : world) (english_text : text) :
  english_transcript T a tmpdir w = (Val english_text, w1) ->
  no_manual_translation a (fs w1) ->
  has_thai (translated_or_input (google_translate T "en" "th" english_text)
              english_text) = false ->
  main T fuel a tmpdir w =
    (Val tt,
     {| fs := <["english_for_translation.txt" := TextFile english_text]> (fs w1);
        log := log w1 ++
               [Print MsgTranslating;
                Translate "en" "th";
                Print MsgTranslateFailed;
                WriteText "english_for_translation.txt" english_text;
                Print (MsgSavedTo "english_for_translation.txt");
                Print MsgPleaseTranslate;
                Print (MsgRunAgain (input_video a) (output_video a))] |}).
Proof.
  intros H13 Hmanual Hthai. unfold main.
  rewrite (bind_val _ _ _ _ _ H13).
  set (w2 := {| fs := <["english_for_translation.txt" := TextFile english_text]> (fs w1);
                log := log w1 ++ _ |}).
  assert (Hauto :
    (print MsgTranslating ;;
     thai_text ← translate_english_to_thai_google T english_text;
     if negb (has_thai thai_text) then
       print MsgTranslateFailed;;
       write_text manual_file english_text;;
       print (MsgSavedTo manual_file);;
       print MsgPleaseTranslate;;
       print (MsgRunAgain (input_video a) (output_video a));;
       mret None
     else mret (Some thai_text)) w1 = (Val None, w2)).
  { unfold translate_english_to_thai_google, write_text. exec.
    rewrite Hthai. exec. unfold w2. rewrite <- !app_assoc. reflexivity. }
  assert (H4 : thai_translation T a english_text w1 = (Val None, w2)).
  { unfold thai_translation, no_manual_translation in *.
    destruct (thai_file a) as [path|]; [|exact Hauto].
    destruct Hmanual as [-> | Hnone]; [exact Hauto|].
    destruct (String.eqb path "") eqn:E; [exact Hauto|].
    unfold mbind at 1, M_bind at 1, bind at 1. exec. rewrite Hnone.
    exact Hauto. }
  rewrite (bind_val _ _ _ _ _ H4). reflexivity.
Qed.

Lemma no_thai_text_saves_english_and_returns_witness :
  main (demo_tools translate_down probe_ok filter_ok trim_fails) 5 demo_args
      demo_tmpdir demo_start =
    (Val tt,
     {| fs := <["english_for_translation.txt" := TextFile demo_chinese]>
                (fs demo_transcribed);
        log := log demo_transcribed ++
               [Print MsgTranslating;
                Translate "en" "th";
                Print MsgTranslateFailed;
                WriteText "english_for_translation.txt" demo_chinese;
                Print (MsgSavedTo "english_for_translation.txt");
                Print MsgPleaseTranslate;
                Print (MsgRunAgain (input_video demo_args)
                         (output_video demo_args))] |}).
Proof.
  apply (no_thai_text_saves_english_and_returns
           (demo_tools translate_down probe_ok filter_ok trim_fails) 5 demo_args
           demo_tmpdir demo_start demo_transcribed demo_chinese).
  - reflexivity.
  - exact I.
  - reflexivity.
Defined.

(** ** Sample runs, evaluated *)

(** The literals are the binary64 numbers they name. *)
Example literal_values :
  float_value half == 1 # 2 /\ float_value one == 1 /\
  float_value one_and_half == 3 # 2 /\ float_value two == 2 /\
  float_of_Z 1 = one /\ float_of_Z 2 = two /\
  fdiv (float_of_Z 1) (float_of_Z 2) = half /\
  fdiv (float_of_Z 3) (float_of_Z 2) = one_and_half.
Proof. repeat split; reflexivity. Qed.

(** Video of 10 s and speech of 20 s: one stage 2.0. *)
Example plan_of_double :
  build_filter_chain 5
    (calculate_optimal_speed (Some (float_of_Z 10)) (Some (float_of_Z 20))) =
  Some [two].
Proof. vm_compute. reflexivity. Qed.

(** Video of 10 s and speech of 35 s: stages 2.0 and 1.75. *)
Example plan_of_three_and_a_half :
  option_map (map (fun x => Qred (float_value x)))
    (build_filter_chain 5
       (calculate_optimal_speed (Some (float_of_Z 10)) (Some (float_of_Z 35)))) =
  Some [2; 7 # 4].
Proof. vm_compute. reflexivity. Qed.

(** The float nearest to 0.1: three stages 0.5 and one stage that is
    eight times that float. *)
Example plan_of_a_tenth :
  build_filter_chain 5 (fdiv (float_of_Z 1) (float_of_Z 10)) =
  Some [half; half; half; fdiv (float_of_Z 8) (float_of_Z 10)].
Proof. vm_compute. reflexivity. Qed.

(** An unknown duration: the default factor 1.5 and its chain. *)
Example plan_of_default :
  build_filter_chain 5 (calculate_optimal_speed None (Some (float_of_Z 20))) =
  Some [one_and_half].
Proof. vm_compute. reflexivity. Qed.

(** A whole run in which the trim call fails: [main] ends normally, its
    last action is the muxing of the speed-adjusted track. *)
Example run_with_failed_truncation :
  let r := main (demo_tools translate_ok probe_ok filter_ok trim_fails) 5
             demo_args demo_tmpdir demo_start in
  fst r = Val tt /\
  fs (snd r) !! demo_thai_mp3 = Some demo_adjusted /\
  last (log (snd r)) = Some (Mux "in.mp4" demo_thai_mp3 "out.mp4").
Proof. vm_compute. repeat split; reflexivity. Qed.

(** A whole run in which both rate-shift calls fail: [main] ends normally
    and muxes the synthesized track as it was. *)
Example run_with_failed_filters :
  let r := main (demo_tools translate_ok probe_ok filter_fails trim_fails) 5
             demo_args demo_tmpdir demo_start in
  fst r = Val tt /\
  fs (snd r) !! demo_thai_mp3 = Some demo_tts /\
  last (log (snd r)) = Some (Mux "in.mp4" demo_thai_mp3 "out.mp4").
Proof. vm_compute. repeat split; reflexivity. Qed.

(** A whole run in which the adjusted track cannot be probed: [main] ends
    with [TypeError] and nothing is muxed. *)
Example run_with_failed_reprobe :
  let r := main (demo_tools translate_ok probe_adjusted_fails filter_ok trim_fails)
             5 demo_args demo_tmpdir demo_start in
  fst r = Raise TypeError /\
  last (log (snd r)) = Some (Probe demo_thai_mp3).
Proof. vm_compute. repeat split; reflexivity. Qed.

(** ** Word counts and [strip] *)

Lemma concat_runs_from (p : N -> bool) (t : text) :
  forall run : text, concat (runs_from p run t) = rev run ++ List.filter p t.
Proof.
  induction t as [|c t IH]; intros run; cbn [runs_from List.filter].
  - destruct run; cbn [concat]; rewrite ?app_nil_r; reflexivity.
  - destruct (p c) eqn:Hc.
    + rewrite IH. cbn [rev]. rewrite <- app_assoc. reflexivity.
    + destruct run as [|r run]; [apply IH|].
      cbn [concat]. rewrite IH. reflexivity.
Qed.

(** The matches, joined, are the matching characters of the text in
    order. *)
Lemma concat_runs (p : N -> bool) (t : text) :
  concat (runs p t) = List.filter p t.
Proof. unfold runs. rewrite concat_runs_from. reflexivity. Qed.

Lemma runs_from_words (p : N -> bool) (t : text) :
  forall run : text,
    Forall (fun c => p c = true) run ->
    Forall (fun w => w <> [] /\ Forall (fun c => p c = true) w) (runs_from p run t).
Proof.
  assert (Hrev : forall run : text,
             run <> [] -> Forall (fun c => p c = true) run ->
             rev run <> [] /\ Forall (fun c => p c = true) (rev run)).
  { intros run Hne Hall. split.
    - intros H. apply (f_equal (@length N)) in H. rewrite length_rev in H.
      destruct run; [congruence | discriminate].
    - apply Forall_rev. exact Hall. }
  induction t as [|c t IH]; intros run Hrun; cbn [runs_from].
  - destruct run as [|r run]; constructor; [|constructor].
    apply Hrev; [discriminate | exact Hrun].
  - destruct (p c) eqn:Hc.
    + apply IH. constructor; assumption.
    + destruct run as [|r run]; [apply IH; constructor|].
      constructor; [apply Hrev; [discriminate | exact Hrun] | apply IH; constructor].
Qed.

(** Every match is non-empty and made of matching characters only. *)
Lemma runs_words (p : N -> bool) (t : text) :
  Forall (fun w => w <> [] /\ Forall (fun c => p c = true) w) (runs p t).
Proof. apply runs_from_words. constructor. Qed.

Lemma runs_from_nil_iff (p : N -> bool) (t : text) :
  forall run : text,
    runs_from p run t = [] <-> run = [] /\ existsb p t = false.
Proof.
  induction t as [|c t IH]; intros run; cbn [runs_from existsb].
  - destruct run; split; try tauto; try discriminate. intros [H _]. discriminate.
  - destruct (p c) eqn:Hc; cbn [orb].
    + rewrite IH. split; [intros [H _]; discriminate | intros [_ H]; discriminate].
    + destruct run as [|r run]; [apply IH|].
      split; [discriminate | intros [H _]; discriminate].
Qed.

(** The Thai word count is zero exactly when the test of line 204 finds
    no Thai character. *)
Lemma count_thai_words_zero (t : text) :
  count_thai_words t = O <-> has_thai t = false.
Proof.
  unfold count_thai_words, has_thai, runs. rewrite length_zero_iff_nil.
  rewrite runs_from_nil_iff. tauto.
Qed.

(** *** [strip] and [split] *)


Lemma lstrip_decomp (t : text) :
  exists ws : text, t = ws ++ lstrip t /\ all_space ws.
Proof.
  induction t as [|c t (ws & E & Hws)]; cbn [lstrip].
  - exists []. split; [reflexivity | constructor].
  - destruct (is_space c) eqn:Hc.
    + exists (c :: ws). split; [cbn [app]; congruence | constructor; assumption].
    + exists []. split; [reflexivity | constructor].
Qed.

Lemma lstrip_head (t : text) :
  match lstrip t with c :: _ => is_space c = false | [] => True end.
Proof.
  induction t as [|c t IH]; cbn [lstrip]; [exact I|].
  destruct (is_space c) eqn:Hc; [exact IH | exact Hc].
Qed.

Lemma lstrip_id (t : text) :
  match t with c :: _ => is_space c = false | [] => True end -> lstrip t = t.
Proof. destruct t as [|c t]; cbn [lstrip]; [reflexivity|]. intros ->. reflexivity. Qed.

(** [strip] removes whitespace from both ends and nothing else. *)
Lemma strip_decomp (t : text) :
  exists ws1 ws2 : text,
    t = ws1 ++ strip t ++ ws2 /\ all_space ws1 /\ all_space ws2.
Proof.
  unfold strip.
  destruct (lstrip_decomp t) as (ws1 & E1 & H1).
  destruct (lstrip_decomp (rev (lstrip t))) as (ws2 & E2 & H2).
  exists ws1, (rev ws2). repeat split; [|exact H1 | apply Forall_rev; exact H2].
  rewrite <- rev_app_distr, <- E2, rev_involutive. exact E1.
Qed.

Lemma strip_trimmed (t : text) : trimmed (strip t).
Proof.
  unfold trimmed, strip. split.
  - pose proof (lstrip_head t) as Hhead.
    destruct (lstrip_decomp (rev (lstrip t))) as (ws & E & _).
    apply (f_equal (@rev N)) in E. rewrite rev_involutive, rev_app_distr in E.
    destruct (rev (lstrip (rev (lstrip t)))) as [|c r]; [exact I|].
    rewrite E in Hhead. exact Hhead.
  - rewrite rev_involutive. apply lstrip_head.
Qed.

Lemma strip_of_trimmed (t : text) : trimmed t -> strip t = t.
Proof.
  intros [Hhead Hlast]. unfold strip.
  rewrite (lstrip_id t Hhead), (lstrip_id (rev t) Hlast). apply rev_involutive.
Qed.

(** Stripping twice is stripping once. *)
Lemma strip_idempotent (t : text) : strip (strip t) = strip t.
Proof. apply strip_of_trimmed, strip_trimmed. Qed.

Lemma runs_skip_leading (p : N -> bool) (ws t : text) :
  Forall (fun c => p c = false) ws -> runs p (ws ++ t) = runs p t.
Proof.
  unfold runs. induction 1 as [|c ws Hc _ IH]; cbn [app runs_from]; [reflexivity|].
  rewrite Hc. exact IH.
Qed.

Lemma runs_from_skip_trailing (p : N -> bool) (ws : text) :
  Forall (fun c => p c = false) ws ->
  forall t run : text, runs_from p run (t ++ ws) = runs_from p run t.
Proof.
  intros Hws. induction t as [|c t IH]; intros run; cbn [app runs_from].
  - revert run. induction Hws as [|c ws Hc _ IHws]; intros run; [reflexivity|].
    cbn [runs_from]. rewrite Hc.
    destruct run as [|r run]; [apply IHws|].
    rewrite IHws. reflexivity.
  - destruct (p c); [apply IH|].
    destruct run; rewrite IH; reflexivity.
Qed.

Lemma all_space_not_word (ws : text) :
  all_space ws -> Forall (fun c => negb (is_space c) = false) ws.
Proof.
  unfold all_space. intros H. eapply Forall_impl; [exact H|].
  intros c Hc. cbn beta in Hc. rewrite Hc. reflexivity.
Qed.

(** The words of a text are the words of the stripped text. *)
Lemma split_strip (t : text) : split (strip t) = split t.
Proof.
  destruct (strip_decomp t) as (ws1 & ws2 & E & H1 & H2).
  rewrite E at 2. unfold split.
  rewrite runs_skip_leading by (apply all_space_not_word; exact H1).
  unfold runs. rewrite runs_from_skip_trailing by (apply all_space_not_word; exact H2).
  reflexivity.
Qed.

(** A text of whitespace only strips to the empty text, and only such a
    text does. *)
Lemma strip_nil_iff (t : text) : strip t = [] <-> all_space t.
Proof.
  split.
  - intros H. destruct (strip_decomp t) as (ws1 & ws2 & E & H1 & H2).
    rewrite H in E. rewrite E. cbn [app]. apply Forall_app. split; assumption.
  - intros Hall. unfold strip.
    assert (Hl : forall u : text, all_space u -> lstrip u = []).
    { induction 1 as [|c u Hc _ IH]; cbn [lstrip]; [reflexivity|]. rewrite Hc. exact IH. }
    rewrite (Hl t Hall). reflexivity.
Qed.

(** *** Counts of a concatenation *)

Lemma runs_from_length_run (p : N -> bool) (t : text) :
  forall run run' : text,
    run <> [] -> run' <> [] ->
    length (runs_from p run t) = length (runs_from p run' t).
Proof.
  induction t as [|c t IH]; intros run run' Hr Hr'; cbn [runs_from].
  - destruct run, run'; try congruence. reflexivity.
  - destruct (p c); [apply IH; discriminate|].
    destruct run, run'; try congruence. reflexivity.
Qed.

Lemma runs_from_length_bounds (p : N -> bool) (t : text) :
  forall run : text,
    run <> [] ->
    (length (runs_from p [] t) <= length (runs_from p run t) <=
     S (length (runs_from p [] t)))%nat.
Proof.
  induction t as [|c t IH]; intros run Hr; cbn [runs_from].
  - destruct run; [congruence|]. cbn [length]. lia.
  - destruct (p c).
    + rewrite (runs_from_length_run p t (c :: run) [c]) by discriminate. lia.
    + destruct run; [congruence|]. cbn [length]. lia.
Qed.

Lemma runs_from_app_length (p : N -> bool) (b : text) :
  forall a run : text,
    (length (runs_from p run (a ++ b)) <=
       length (runs_from p run a) + length (runs p b) <=
     S (length (runs_from p run (a ++ b))))%nat.
Proof.
  induction a as [|c a IH]; intros run; cbn [app runs_from].
  - destruct run as [|r run]; cbn [length]; [unfold runs; lia|].
    pose proof (runs_from_length_bounds p b (r :: run) ltac:(discriminate)).
    unfold runs. lia.
  - destruct (p c); [apply IH|].
    destruct run as [|r run]; [apply IH|].
    cbn [length]. specialize (IH []). lia.
Qed.

(** Joining two texts merges at most one word: the count of the whole
    is the sum of the counts of its parts, or one less. *)
Lemma count_words_app (a b : text) :
  (count_thai_words (a ++ b) <= count_thai_words a + count_thai_words b <=
   S (count_thai_words (a ++ b)))%nat /\
  (count_english_words (a ++ b) <= count_english_words a + count_english_words b <=
   S (count_english_words (a ++ b)))%nat /\
  count_chinese_words (a ++ b) = (count_chinese_words a + count_chinese_words b)%nat.
Proof.
  unfold count_thai_words, count_english_words, count_chinese_words, split.
  repeat split; try apply (runs_from_app_length _ b a []).
  rewrite List.filter_app, length_app. reflexivity.
Qed.

(** *** Words around a separator *)

Lemma runs_from_separator (p : N -> bool) (c : N) (b : text) :
  p c = false ->
  forall a run : text,
    runs_from p run (a ++ c :: b) = runs_from p run a ++ runs p b.
Proof.
  intros Hc. induction a as [|x a IH]; intros run; cbn [app runs_from].
  - rewrite Hc. destruct run; reflexivity.
  - destruct (p x); [apply IH|].
    destruct run; rewrite IH; reflexivity.
Qed.

Lemma runs_from_word (p : N -> bool) (t : text) :
  Forall (fun c => p c = true) t ->
  forall run : text,
    runs_from p run t =
      match rev run ++ t with
      | [] => []
      | word => [word]
      end.
Proof.
  induction 1 as [|c t Hc _ IH]; intros run; cbn [runs_from].
  - rewrite app_nil_r. destruct run as [|r run]; [reflexivity|].
    destruct (rev (r :: run)) eqn:E; [|reflexivity].
    apply (f_equal (@length N)) in E. rewrite length_rev in E. discriminate.
  - rewrite Hc, IH. cbn [rev]. rewrite <- app_assoc. reflexivity.
Qed.

Lemma is_space_range (c : N) :
  is_space c = true -> (c <= 0xA0 \/ 0x1680 <= c <= 0x3000)%N.
Proof.
  unfold is_space.
  rewrite !Bool.orb_true_iff, !Bool.andb_true_iff, !N.leb_le, !N.eqb_eq. lia.
Qed.

Lemma space_not_thai (c : N) : is_space c = true -> is_thai c = false.
Proof.
  intros H. apply is_space_range in H. unfold is_thai.
  apply Bool.andb_false_iff. rewrite !N.leb_gt. lia.
Qed.

Lemma space_not_chinese (c : N) : is_space c = true -> is_chinese c = false.
Proof.
  intros H. apply is_space_range in H. unfold is_chinese.
  apply Bool.andb_false_iff. rewrite !N.leb_gt. lia.
Qed.

Lemma filter_skip (p : N -> bool) (ws : text) :
  Forall (fun c => p c = false) ws -> List.filter p ws = [].
Proof.
  induction 1 as [|c ws Hc _ IH]; cbn [List.filter]; [reflexivity|].
  rewrite Hc. exact IH.
Qed.

Lemma runs_strip (p : N -> bool) (t : text) :
  (forall c : N, is_space c = true -> p c = false) ->
  runs p (strip t) = runs p t.
Proof.
  intros Hp.
  destruct (strip_decomp t) as (ws1 & ws2 & E & H1 & H2).
  assert (Hskip : forall ws : text, all_space ws -> Forall (fun c => p c = false) ws).
  { intros ws Hws. eapply Forall_impl; [exact Hws|]. exact Hp. }
  rewrite E at 2.
  rewrite runs_skip_leading by (apply Hskip; exact H1).
  unfold runs. rewrite runs_from_skip_trailing by (apply Hskip; exact H2).
  reflexivity.
Qed.

(** The maximal runs: a text without a separator is one word, and a
    separator splits the words on its two sides. *)
Lemma words_around_separator (a b : text) (c : N) :
  is_space c = true ->
  split (a ++ c :: b) = split a ++ split b /\
  count_english_words (a ++ c :: b) =
    (count_english_words a + count_english_words b)%nat /\
  count_thai_words (a ++ c :: b) = (count_thai_words a + count_thai_words b)%nat.
Proof.
  intros Hc.
  assert (H1 : split (a ++ c :: b) = split a ++ split b).
  { unfold split, runs. apply runs_from_separator. rewrite Hc. reflexivity. }
  split; [exact H1|]. split.
  - unfold count_english_words. rewrite H1. apply length_app.
  - unfold count_thai_words, runs.
    rewrite runs_from_separator by (apply space_not_thai; exact Hc).
    apply length_app.
Qed.

Lemma words_around_separator_witness :
  split ([0x68; 0x69] ++ 0x20 :: [0x0E2A; 0x0E27])%N =
    split [0x68; 0x69]%N ++ split [0x0E2A; 0x0E27]%N /\
  count_english_words ([0x68; 0x69] ++ 0x20 :: [0x0E2A; 0x0E27])%N =
    (count_english_words [0x68; 0x69]%N + count_english_words [0x0E2A; 0x0E27]%N)%nat /\
  count_thai_words ([0x68; 0x69] ++ 0x20 :: [0x0E2A; 0x0E27])%N =
    (count_thai_words [0x68; 0x69]%N + count_thai_words [0x0E2A; 0x0E27]%N)%nat.
Proof.
  apply (words_around_separator [0x68; 0x69]%N [0x0E2A; 0x0E27]%N 0x20%N).
  reflexivity.
Defined.

(** A non-empty text without whitespace is one word. *)
Lemma split_one_word (t : text) :
  t <> [] -> Forall (fun c => is_space c = false) t -> split t = [t].
Proof.
  intros Hne Hall. unfold split, runs. rewrite runs_from_word.
  - cbn [rev app]. destruct t; [congruence | reflexivity].
  - eapply Forall_impl; [exact Hall|]. intros c Hc. cbn beta in Hc.
    rewrite Hc. reflexivity.
Qed.

Lemma split_one_word_witness : split demo_thai = [demo_thai].
Proof.
  apply (split_one_word demo_thai).
  - discriminate.
  - repeat constructor.
Defined.

(** Stripping a text (line 198) changes none of the three counts. *)
Lemma strip_keeps_counts (t : text) :
  count_thai_words (strip t) = count_thai_words t /\
  count_english_words (strip t) = count_english_words t /\
  count_chinese_words (strip t) = count_chinese_words t /\
  has_thai (strip t) = has_thai t.
Proof.
  assert (Hthai : runs is_thai (strip t) = runs is_thai t)
    by (apply runs_strip, space_not_thai).
  repeat split.
  - unfold count_thai_words. rewrite Hthai. reflexivity.
  - unfold count_english_words. rewrite split_strip. reflexivity.
  - unfold count_chinese_words.
    destruct (strip_decomp t) as (ws1 & ws2 & E & H1 & H2).
    rewrite E at 2. rewrite !List.filter_app.
    rewrite (filter_skip is_chinese ws1), (filter_skip is_chinese ws2).
    + rewrite app_nil_r. reflexivity.
    + eapply Forall_impl; [exact H2|]. exact space_not_chinese.
    + eapply Forall_impl; [exact H1|]. exact space_not_chinese.
  - assert (Hnil : forall u : text, runs is_thai u = [] <-> has_thai u = false).
    { intros u. unfold runs, has_thai. rewrite runs_from_nil_iff. tauto. }
    destruct (has_thai t) eqn:Ht.
    + destruct (has_thai (strip t)) eqn:Hs; [reflexivity|].
      apply Hnil in Hs. rewrite Hthai in Hs. apply Hnil in Hs. congruence.
    + apply Hnil. rewrite Hthai. apply Hnil. exact Ht.
Qed.

(** A text has no word exactly when it is whitespace only, and exactly
    then it strips to the empty text. *)
Lemma no_word_iff_blank (t : text) :
  (count_english_words t = O <-> all_space t) /\ (strip t = [] <-> all_space t).
Proof.
  split; [|apply strip_nil_iff].
  unfold count_english_words, split, runs.
  rewrite length_zero_iff_nil, runs_from_nil_iff. unfold all_space.
  rewrite List.Forall_forall. split.
  - intros [_ H] c Hin. destruct (is_space c) eqn:Hc; [reflexivity|].
    assert (Hex : existsb (fun c => negb (is_space c)) t = true).
    { apply existsb_exists. exists c. split; [exact Hin | rewrite Hc; reflexivity]. }
    congruence.
  - intros H. split; [reflexivity|].
    destruct (existsb (fun c => negb (is_space c)) t) eqn:E; [|reflexivity].
    apply existsb_exists in E. destruct E as (c & Hin & Hc).
    rewrite (H c Hin) in Hc. discriminate.
Qed.

(** [strip] removes whitespace from both ends and nothing else: the
    text is the stripped text between two runs of whitespace, and the
    stripped text neither starts nor ends with whitespace.  Stripping
    twice is stripping once. *)
Lemma strip_removes_outer_whitespace (t : text) :
  (exists ws1 ws2 : text,
      t = ws1 ++ strip t ++ ws2 /\ all_space ws1 /\ all_space ws2) /\
  trimmed (strip t) /\
  strip (strip t) = strip t.
Proof.
  split; [apply strip_decomp|]. split; [apply strip_trimmed | apply strip_idempotent].
Qed.

(** What the two patterns and [split] return: every match is non-empty
    and made of matching characters only, and the matches, joined, are
    the matching characters of the text in order. *)
Lemma matches_are_words (p : N -> bool) (t : text) :
  Forall (fun w => w <> [] /\ Forall (fun c => p c = true) w) (runs p t) /\
  concat (runs p t) = List.filter p t.
Proof. split; [apply runs_words | apply concat_runs]. Qed.

(** Two texts and their words. *)
Example thai_words_of_mixed_text :
  runs is_thai [0x0E2A; 0x0E27; 0x20; 0x41; 0x0E14]%N = [[0x0E2A; 0x0E27]; [0x0E14]]%N.
Proof. reflexivity. Qed.

Example split_of_padded_text :
  split [0x20; 0x61; 0x62; 0x20; 0x0A; 0x63; 0x20]%N = [[0x61; 0x62]; [0x63]]%N.
Proof. reflexivity. Qed.

(** ** The chain is never empty *)

Lemma speed_up_loop_extends (fuel : nat) :
  forall (x r : float) (chain chain' : list float),
    speed_up_loop fuel x chain = Some (r, chain') ->
    exists ext : list float,
      chain' = chain ++ ext /\ (fgt x two = true -> ext <> []).
Proof.
  induction fuel as [|fuel IH]; intros x r chain chain' H; [discriminate|].
  cbn [speed_up_loop] in H. destruct (fgt x two) eqn:Htest.
  - apply IH in H. destruct H as (ext & -> & _).
    exists (two :: ext). rewrite <- app_assoc. split; [reflexivity | discriminate].
  - injection H as <- <-. exists []. rewrite app_nil_r. split; [reflexivity | discriminate].
Qed.

Lemma slow_down_loop_extends (fuel : nat) :
  forall (x r : float) (chain chain' : list float),
    slow_down_loop fuel x chain = Some (r, chain') ->
    exists ext : list float,
      chain' = chain ++ ext /\ (flt x half = true -> ext <> []).
Proof.
  induction fuel as [|fuel IH]; intros x r chain chain' H; [discriminate|].
  cbn [slow_down_loop] in H. destruct (flt x half) eqn:Htest.
  - apply IH in H. destruct H as (ext & -> & _).
    exists (half :: ext). rewrite <- app_assoc. split; [reflexivity | discriminate].
  - injection H as <- <-. exists []. rewrite app_nil_r. split; [reflexivity | discriminate].
Qed.

(** Whatever the factor (NaN and infinities included) and whatever the
    fuel, a chain that is built has at least one stage: [filter_str] is
    never the empty string. *)
Lemma filter_chain_never_empty (fuel : nat) (speed_factor : float)
    (filter_chain : list float) :
  build_filter_chain fuel speed_factor = Some filter_chain -> filter_chain <> [].
Proof.
  unfold build_filter_chain. intros H.
  destruct (fgt speed_factor two) eqn:Hfast.
  - destruct (speed_up_loop fuel speed_factor []) as [[r chain]|] eqn:Hloop;
      [|discriminate].
    apply speed_up_loop_extends in Hloop. destruct Hloop as (ext & -> & Hne).
    specialize (Hne Hfast). injection H as <-.
    destruct (fgt r one); destruct ext; cbn; congruence.
  - destruct (flt speed_factor half) eqn:Hslow.
    + destruct (slow_down_loop fuel speed_factor []) as [[r chain]|] eqn:Hloop;
        [|discriminate].
      apply slow_down_loop_extends in Hloop. destruct Hloop as (ext & -> & Hne).
      specialize (Hne Hslow). injection H as <-.
      destruct (flt r one); destruct ext; cbn; congruence.
    + injection H as <-. discriminate.
Qed.

Lemma filter_chain_never_empty_witness :
  build_filter_chain 5 S754_nan = Some [S754_nan] /\ [S754_nan] <> [].
Proof.
  split; [reflexivity|].
  apply (filter_chain_never_empty 5 S754_nan [S754_nan]). reflexivity.
Defined.

(** ** Equal durations *)

Local Open Scope Z_scope.

(** A finite float divided by itself is exactly 1.0. *)
Lemma fdiv_self (s : bool) (m : positive) (e : Z) :
  fdiv (S754_finite s m e) (S754_finite s m e) = one.
Proof.
  unfold fdiv, SFdiv, SFdiv_core_binary.
  cbn [Zdigits2].
  replace (Z.pos (digits2_pos m) + e - (Z.pos (digits2_pos m) + e)) with 0 by lia.
  rewrite Z.sub_diag.
  change (Z.min (fexp prec emax 0) 0) with (-53).
  change (0 - -53) with 53.
  cbv iota.
  rewrite Z.shiftl_mul_pow2 by lia.
  rewrite Z.mul_comm, div_eucl_mul by lia.
  assert (Hloc : new_location (Z.pos m) 0 = loc_Exact).
  { unfold new_location. destruct (Z.even (Z.pos m)); reflexivity. }
  rewrite Hloc. destruct s; reflexivity.
Qed.

Local Close Scope Z_scope.

(** When the synthesized speech is exactly as long as the video, the
    factor is exactly 1.0 and the adjustment does nothing. *)
Lemma equal_durations_no_adjustment (T : tools) (fuel : nat) (m : positive)
    (e : Z) (thai_mp3 : string) (w : world) :
  calculate_optimal_speed (Some (S754_finite false m e))
    (Some (S754_finite false m e)) = one /\
  adjust_speed T fuel (Some (S754_finite false m e))
    (calculate_optimal_speed (Some (S754_finite false m e))
       (Some (S754_finite false m e))) thai_mp3 w =
    (Val tt, {| fs := fs w; log := log w ++ [Print MsgNoAdjustment] |}).
Proof.
  assert (E : calculate_optimal_speed (Some (S754_finite false m e))
                (Some (S754_finite false m e)) = one).
  { unfold calculate_optimal_speed.
    change (truthy (Some (S754_finite false m e))) with true.
    change (fgt (S754_finite false m e) zero) with true.
    cbn [andb]. apply fdiv_self. }
  split; [exact E|]. rewrite E. reflexivity.
Qed.

(** ** What a step may touch and what it may raise *)

Section Frames.

Context (P : string -> Prop).

Lemma keeps_ret {A} (a : A) : keeps P (mret a).
Proof. intros w path _. reflexivity. Qed.

Lemma keeps_raise {A} (e : exn) : keeps P (@raise A e).
Proof. intros w path _. reflexivity. Qed.

Lemma keeps_out_of_fuel {A} : keeps P (@out_of_fuel A).
Proof. intros w path _. reflexivity. Qed.

Lemma keeps_emit (e : event) : keeps P (emit e).
Proof. intros w path _. reflexivity. Qed.

Lemma keeps_print (m : message) : keeps P (print m).
Proof. apply keeps_emit. Qed.

Lemma keeps_read_file (path : string) : keeps P (read_file path).
Proof. intros w p _. reflexivity. Qed.

Lemma keeps_bind {A B} (m : M A) (k : A -> M B) :
  keeps P m -> (forall a : A, keeps P (k a)) -> keeps P (m ≫= k).
Proof.
  intros Hm Hk w path Hp. specialize (Hm w path Hp).
  unfold mbind, M_bind, bind. destruct (m w) as [[a | e |] w'] eqn:E;
    cbn [snd] in *; try exact Hm.
  rewrite (Hk a w' path Hp). exact Hm.
Qed.

Lemma keeps_try {A} (body handler : M A) :
  keeps P body -> keeps P handler -> keeps P (try_except_cpe body handler).
Proof.
  intros Hb Hh w path Hp. specialize (Hb w path Hp).
  unfold try_except_cpe. destruct (body w) as [[a | e |] w'] eqn:E;
    cbn [snd] in *; try exact Hb.
  destruct e; cbn [snd]; try exact Hb.
  rewrite (Hh w' path Hp). exact Hb.
Qed.

Lemma keeps_insert (dst : string) (c : file) :
  P dst -> keeps P (set_fs (<[dst := c]>)).
Proof.
  intros Hd w path Hp. cbn. apply lookup_insert_ne. intros ->. contradiction.
Qed.

Lemma keeps_run_checked (p : proc) (dst : string) :
  P dst -> keeps P (run_checked p dst).
Proof.
  intros Hd. destruct p as [out | partial]; cbn [run_checked].
  - apply keeps_insert, Hd.
  - apply keeps_bind; [|intros; apply keeps_raise].
    intros w path Hp. cbn. destruct partial as [c|]; cbn [write_partial]; [|reflexivity].
    apply lookup_insert_ne. intros ->. contradiction.
Qed.

Lemma keeps_os_rename (src dst : string) :
  P src -> P dst -> keeps P (os_rename src dst).
Proof.
  intros Hs Hd. unfold os_rename. apply keeps_bind; [apply keeps_read_file|].
  intros [c|]; [|apply keeps_raise].
  intros w path Hp. cbn.
  rewrite lookup_insert_ne, lookup_delete_ne; [reflexivity | |];
    intros ->; contradiction.
Qed.

Lemma keeps_os_remove (path : string) : P path -> keeps P (os_remove path).
Proof.
  intros Hd. unfold os_remove. apply keeps_bind; [apply keeps_read_file|].
  intros [c|]; [|apply keeps_raise].
  intros w p Hp. cbn. apply lookup_delete_ne. intros ->. contradiction.
Qed.

End Frames.

Ltac keeps_step :=
  first
    [ apply keeps_bind; [|intros]
    | apply keeps_try
    | apply keeps_print
    | apply keeps_emit
    | apply keeps_read_file
    | apply keeps_ret
    | apply keeps_raise
    | apply keeps_out_of_fuel
    | apply keeps_os_rename
    | apply keeps_os_remove
    | apply keeps_run_checked
    | apply keeps_insert ].

Lemma keeps_get_audio_duration (P : string -> Prop) (T : tools) (path : string) :
  keeps P (get_audio_duration T path).
Proof. unfold get_audio_duration. repeat keeps_step. Qed.

Lemma keeps_format_1f (P : string -> Prop) (d : option float) : keeps P (format_1f d).
Proof. destruct d; [apply (keeps_ret P) | apply keeps_raise]. Qed.

Lemma keeps_adjust_speed (T : tools) (fuel : nat)
    (video_duration : option float) (speed_factor : float) (thai_mp3 : string) :
  keeps (adjustment_path thai_mp3)
    (adjust_speed T fuel video_duration speed_factor thai_mp3).
Proof.
  assert (H1 : adjustment_path thai_mp3 thai_mp3) by (left; reflexivity).
  assert (H2 : adjustment_path thai_mp3 (thai_mp3 +:+ ".temp"))
    by (right; left; reflexivity).
  assert (H3 : adjustment_path thai_mp3 (thai_mp3 +:+ ".truncate"))
    by (right; right; reflexivity).
  unfold adjust_speed. destruct (fne speed_factor one); [|apply keeps_print].
  apply keeps_bind; [apply keeps_print | intros _].
  apply keeps_bind; [apply keeps_os_rename; assumption | intros _].
  apply keeps_bind.
  { unfold plan_filter. destruct (build_filter_chain fuel speed_factor);
      [|apply keeps_out_of_fuel]. repeat keeps_step. }
  intros filter_str. apply keeps_try.
  - apply keeps_bind; [apply keeps_read_file | intros src].
    apply keeps_bind; [apply keeps_emit | intros _].
    apply keeps_bind; [apply keeps_run_checked; assumption | intros _].
    apply keeps_bind; [apply keeps_os_remove; assumption | intros _].
    unfold verify_duration.
    apply keeps_bind; [apply keeps_get_audio_duration | intros fa].
    apply keeps_bind; [apply keeps_format_1f | intros d].
    apply keeps_bind; [apply keeps_print | intros _].
    destruct fa as [fa|], video_duration as [vd|]; try apply (keeps_ret _ tt).
    destruct (truthy (Some fa) && truthy (Some vd) && fgt (fabs (fsub fa vd)) one);
      [|apply (keeps_ret _ tt)].
    apply keeps_bind; [apply keeps_print | intros _].
    apply keeps_bind; [apply keeps_print | intros _].
    apply keeps_bind; [apply keeps_print | intros _].
    destruct (fgt fa (fadd vd one)); [|apply (keeps_ret _ tt)].
    apply keeps_bind; [apply keeps_print | intros _].
    unfold truncate_audio. apply keeps_try.
    + apply keeps_bind; [apply keeps_os_rename; assumption | intros _].
      apply keeps_bind; [apply keeps_read_file | intros src'].
      apply keeps_bind; [apply keeps_emit | intros _].
      apply keeps_bind; [apply keeps_run_checked; assumption | intros _].
      apply keeps_bind; [apply keeps_os_remove; assumption | intros _].
      apply keeps_bind; [apply keeps_get_audio_duration | intros fa'].
      apply keeps_bind; [apply keeps_format_1f | intros d'].
      apply keeps_print.
    + apply keeps_bind; [apply keeps_print | intros _].
      apply keeps_bind; [apply keeps_print | intros _].
      apply keeps_os_rename; assumption.
  - apply keeps_bind; [apply keeps_print | intros _].
    apply keeps_bind; [apply keeps_print | intros _].
    unfold rubberband_fallback. apply keeps_try.
    + apply keeps_bind; [apply keeps_read_file | intros src].
      apply keeps_bind; [apply keeps_emit | intros _].
      apply keeps_bind; [apply keeps_run_checked; assumption | intros _].
      apply keeps_bind; [apply keeps_os_remove; assumption | intros _].
      apply keeps_bind; [apply keeps_get_audio_duration | intros fa'].
      apply keeps_bind; [apply keeps_format_1f | intros d'].
      apply keeps_print.
    + apply keeps_bind; [apply keeps_print | intros _].
      apply keeps_bind; [apply keeps_print | intros _].
      apply keeps_os_rename; assumption.
Qed.

(** Whatever the external programs do and however the adjustment ends,
    it changes no file other than the track, its [.temp] name and its
    [.truncate] name. *)
Lemma adjust_speed_touches_only_its_files (T : tools) (fuel : nat)
    (video_duration : option float) (speed_factor : float) (thai_mp3 : string)
    (w : world) (path : string) :
  ~ adjustment_path thai_mp3 path ->
  fs (snd (adjust_speed T fuel video_duration speed_factor thai_mp3 w)) !! path =
    fs w !! path.
Proof. intros H. apply keeps_adjust_speed, H. Qed.

Lemma adjust_speed_touches_only_its_files_witness :
  fs (snd (adjust_speed (demo_tools translate_ok probe_ok filter_fails trim_fails) 5
             (Some (float_of_Z 10)) demo_factor demo_thai_mp3 demo_synthesized))
    !! "in.mp4" = fs demo_synthesized !! "in.mp4".
Proof.
  apply (adjust_speed_touches_only_its_files
           (demo_tools translate_ok probe_ok filter_fails trim_fails) 5
           (Some (float_of_Z 10)) demo_factor demo_thai_mp3 demo_synthesized "in.mp4").
  intros [H | [H | H]]; vm_compute in H; discriminate H.
Defined.

(** ** Outcomes of the adjustment *)

Lemma rubberband_fallback_ok (T : tools) (sf : float) (temp_mp3 thai_mp3 : string)
    (c stretched : file) (w : world) :
  thai_mp3 <> temp_mp3 ->
  fs w !! temp_mp3 = Some c ->
  ffmpeg_filter T (Rubberband sf) (Some c) = Exit0 stretched ->
  rubberband_fallback T sf temp_mp3 thai_mp3 w =
    (formatted (ffprobe_duration T (Some stretched)),
     {| fs := delete temp_mp3 (<[thai_mp3 := stretched]> (fs w));
        log := log w ++ [Filter (Rubberband sf) temp_mp3 thai_mp3; Probe thai_mp3] ++
               match ffprobe_duration T (Some stretched) with
               | Some d => [Print (MsgRubberbandDuration d)]
               | None => []
               end |}).
Proof.
  intros Hne Hc Hok. unfold rubberband_fallback, try_except_cpe. exec.
  rewrite Hc, Hok. exec.
  rewrite (os_remove_run _ c).
  2:{ reduce. rewrite lookup_insert_ne by congruence. exact Hc. }
  reduce. rewrite get_audio_duration_run. reduce.
  rewrite lookup_delete_ne, lookup_insert_eq by congruence.
  destruct (ffprobe_duration T (Some stretched)) as [d|]; exec;
    rewrite <- !app_assoc; reflexivity.
Qed.

Lemma truncate_audio_ok (T : tools) (vd : float) (thai_mp3 : string)
    (adjusted trimmed : file) (w : world) :
  fs w !! thai_mp3 = Some adjusted ->
  ffmpeg_trim T vd (Some adjusted) = Exit0 trimmed ->
  truncate_audio T vd thai_mp3 w =
    (formatted (ffprobe_duration T (Some trimmed)),
     {| fs := delete (thai_mp3 +:+ ".truncate")
                (<[thai_mp3 := trimmed]>
                   (<[thai_mp3 +:+ ".truncate" := adjusted]> (delete thai_mp3 (fs w))));
        log := log w ++ [Trim vd (thai_mp3 +:+ ".truncate") thai_mp3; Probe thai_mp3] ++
               match ffprobe_duration T (Some trimmed) with
               | Some d => [Print (MsgTruncatedDuration d)]
               | None => []
               end |}).
Proof.
  intros Hc Hok. pose proof (truncate_ne thai_mp3) as Hne.
  unfold truncate_audio, try_except_cpe. exec.
  rewrite (os_rename_run _ _ adjusted) by exact Hc. reduce.
  rewrite lookup_insert_eq, Hok. exec.
  rewrite (os_remove_run _ adjusted).
  2:{ reduce. rewrite lookup_insert_ne by congruence. apply lookup_insert_eq. }
  reduce. rewrite get_audio_duration_run. reduce.
  rewrite lookup_delete_ne, lookup_insert_eq by congruence.
  destruct (ffprobe_duration T (Some trimmed)) as [d|]; exec;
    rewrite <- !app_assoc; reflexivity.
Qed.

(** The run of the adjustment when the atempo call fails. *)
Lemma adjust_speed_primary_fails (T : tools) (fuel : nat)
    (video_duration : option float) (speed_factor : float) (thai_mp3 : string)
    (w : world) (original : file) (filter_chain : list float) (p : option file) :
  fs w !! thai_mp3 = Some original ->
  fne speed_factor one = true ->
  build_filter_chain fuel speed_factor = Some filter_chain ->
  ffmpeg_filter T (Atempo filter_chain) (Some original) = ExitFail p ->
  adjust_speed T fuel video_duration speed_factor thai_mp3 w =
    rubberband_fallback T speed_factor (thai_mp3 +:+ ".temp") thai_mp3
      {| fs := write_partial p thai_mp3
                 (<[thai_mp3 +:+ ".temp" := original]> (delete thai_mp3 (fs w)));
         log := log w ++
                [Print MsgAdjusting;
                 Print (if fgt speed_factor two || flt speed_factor half
                        then MsgChained filter_chain else MsgSingle filter_chain);
                 Filter (Atempo filter_chain) (thai_mp3 +:+ ".temp") thai_mp3;
                 Print MsgAdjustFailed; Print MsgTryingRubberband] |}.
Proof.
  intros Hc Hsf Hchain Hfail.
  rewrite (adjust_speed_start T fuel video_duration speed_factor thai_mp3 w
             original filter_chain Hc Hsf Hchain).
  unfold try_except_cpe. exec.
  rewrite lookup_insert_eq, Hfail. exec.
  rewrite <- !app_assoc. reflexivity.
Qed.

(** When the atempo call fails and the rubberband call succeeds (lines
    317-334), the stretched track is the final one: its duration is
    probed and printed, never compared with the video's, and it is never
    trimmed.  A failed probe raises [TypeError] at line 334. *)
Lemma rubberband_fallback_success (T : tools) (fuel : nat)
    (video_duration : option float) (speed_factor : float) (thai_mp3 : string)
    (w : world) (original stretched : file) (filter_chain : list float)
    (p : option file) :
  fs w !! thai_mp3 = Some original ->
  fne speed_factor one = true ->
  build_filter_chain fuel speed_factor = Some filter_chain ->
  ffmpeg_filter T (Atempo filter_chain) (Some original) = ExitFail p ->
  ffmpeg_filter T (Rubberband speed_factor) (Some original) = Exit0 stretched ->
  exists w' : world,
    adjust_speed T fuel video_duration speed_factor thai_mp3 w =
      (formatted (ffprobe_duration T (Some stretched)), w') /\
    fs w' !! thai_mp3 = Some stretched /\
    fs w' !! (thai_mp3 +:+ ".temp") = None /\
    (forall path : string,
        path <> thai_mp3 -> path <> thai_mp3 +:+ ".temp" ->
        fs w' !! path = fs w !! path) /\
    log w' =
      log w ++
      [Print MsgAdjusting;
       Print (if fgt speed_factor two || flt speed_factor half
              then MsgChained filter_chain else MsgSingle filter_chain);
       Filter (Atempo filter_chain) (thai_mp3 +:+ ".temp") thai_mp3;
       Print MsgAdjustFailed; Print MsgTryingRubberband;
       Filter (Rubberband speed_factor) (thai_mp3 +:+ ".temp") thai_mp3;
       Probe thai_mp3] ++
      match ffprobe_duration T (Some stretched) with
      | Some d => [Print (MsgRubberbandDuration d)]
      | None => []
      end.
Proof.
  intros Hc Hsf Hchain Hfail Hok.
  pose proof (temp_ne thai_mp3) as Hne.
  rewrite (adjust_speed_primary_fails T fuel video_duration speed_factor thai_mp3 w
             original filter_chain p Hc Hsf Hchain Hfail).
  rewrite (rubberband_fallback_ok T speed_factor _ _ original stretched);
    [ | congruence | | exact Hok ].
  2:{ reduce. rewrite lookup_write_partial_ne by congruence. apply lookup_insert_eq. }
  eexists. split; [reflexivity|]. reduce. repeat split.
  - rewrite lookup_delete_ne by congruence. apply lookup_insert_eq.
  - apply lookup_delete_eq.
  - intros path Hp1 Hp2.
    rewrite lookup_delete_ne, lookup_insert_ne by congruence.
    rewrite lookup_write_partial_ne by congruence.
    rewrite lookup_insert_ne, lookup_delete_ne by congruence. reflexivity.
  - rewrite <- !app_assoc. reflexivity.
Qed.

Lemma rubberband_fallback_success_witness :
  exists w' : world,
    adjust_speed (demo_tools translate_ok probe_all filter_rubberband_only trim_fails)
        5 (Some (float_of_Z 10)) demo_factor demo_thai_mp3 demo_synthesized =
      (Val tt, w') /\
    fs w' !! demo_thai_mp3 = Some demo_stretched /\
    fs w' !! (demo_thai_mp3 +:+ ".temp") = None /\
    (forall path : string,
        path <> demo_thai_mp3 -> path <> demo_thai_mp3 +:+ ".temp" ->
        fs w' !! path = fs demo_synthesized !! path) /\
    log w' =
      log demo_synthesized ++
      [Print MsgAdjusting;
       Print (MsgChained demo_chain);
       Filter (Atempo demo_chain) (demo_thai_mp3 +:+ ".temp") demo_thai_mp3;
       Print MsgAdjustFailed; Print MsgTryingRubberband;
       Filter (Rubberband demo_factor) (demo_thai_mp3 +:+ ".temp") demo_thai_mp3;
       Probe demo_thai_mp3] ++
      [Print (MsgRubberbandDuration (float_of_Z 11))].
Proof.
  apply (rubberband_fallback_success
           (demo_tools translate_ok probe_all filter_rubberband_only trim_fails)
           5 (Some (float_of_Z 10)) demo_factor demo_thai_mp3 demo_synthesized
           demo_tts demo_stretched demo_chain (Some demo_partial)).
  - reflexivity.
  - reflexivity.
  - reflexivity.
  - reflexivity.
  - reflexivity.
Defined.

(** The run of the adjustment up to the truncation, when the tests of
    lines 285 and 291 pass. *)
Lemma adjust_speed_reaches_truncation (T : tools) (fuel : nat)
    (vd speed_factor fa : float) (thai_mp3 : string) (w : world)
    (original adjusted : file) (filter_chain : list float) :
  fs w !! thai_mp3 = Some original ->
  fne speed_factor one = true ->
  build_filter_chain fuel speed_factor = Some filter_chain ->
  ffmpeg_filter T (Atempo filter_chain) (Some original) = Exit0 adjusted ->
  ffprobe_duration T (Some adjusted) = Some fa ->
  still_too_long fa vd = true ->
  adjust_speed T fuel (Some vd) speed_factor thai_mp3 w =
    try_except_cpe (truncate_audio T vd thai_mp3)
      (print MsgAdjustFailed;;
       print MsgTryingRubberband;;
       rubberband_fallback T speed_factor (thai_mp3 +:+ ".temp") thai_mp3)
      {| fs := delete (thai_mp3 +:+ ".temp")
                 (<[thai_mp3 := adjusted]>
                    (<[thai_mp3 +:+ ".temp" := original]> (delete thai_mp3 (fs w))));
         log := log w ++
                [Print MsgAdjusting;
                 Print (if fgt speed_factor two || flt speed_factor half
                        then MsgChained filter_chain else MsgSingle filter_chain);
                 Filter (Atempo filter_chain) (thai_mp3 +:+ ".temp") thai_mp3;
                 Probe thai_mp3; Print (MsgFinalDuration fa);
                 Print (MsgStillDiffers fa vd); Print (MsgFactorApplied speed_factor);
                 Print (MsgDifference (fabs (fsub fa vd))); Print MsgTruncating] |}.
Proof.
  intros Hc Hsf Hchain Hok Hprobe Hlong.
  rewrite (adjust_speed_primary_ok T fuel (Some vd) speed_factor thai_mp3 w
             original adjusted filter_chain Hc Hsf Hchain Hok).
  rewrite Hprobe. unfold try_except_cpe. exec.
  unfold still_too_long in Hlong.
  apply andb_prop in Hlong. destruct Hlong as [Hlong Hcut].
  rewrite Hlong. exec. rewrite Hcut. exec.
  rewrite <- !app_assoc. reflexivity.
Qed.

(** A successful truncation (lines 293-310): the trimmed track replaces
    the adjusted one and both temporary names are gone.  The reprobe of
    line 309 decides how the step ends: a failed probe raises
    [TypeError] at line 310, which neither [except] clause catches. *)
Lemma truncation_success_replaces_track (T : tools) (fuel : nat)
    (vd speed_factor fa : float) (thai_mp3 : string) (w : world)
    (original adjusted trimmed : file) (filter_chain : list float) :
  fs w !! thai_mp3 = Some original ->
  fne speed_factor one = true ->
  build_filter_chain fuel speed_factor = Some filter_chain ->
  ffmpeg_filter T (Atempo filter_chain) (Some original) = Exit0 adjusted ->
  ffprobe_duration T (Some adjusted) = Some fa ->
  still_too_long fa vd = true ->
  ffmpeg_trim T vd (Some adjusted) = Exit0 trimmed ->
  exists w' : world,
    adjust_speed T fuel (Some vd) speed_factor thai_mp3 w =
      (formatted (ffprobe_duration T (Some trimmed)), w') /\
    fs w' !! thai_mp3 = Some trimmed /\
    fs w' !! (thai_mp3 +:+ ".truncate") = None /\
    fs w' !! (thai_mp3 +:+ ".temp") = None /\
    (forall path : string,
        path <> thai_mp3 -> path <> thai_mp3 +:+ ".temp" ->
        path <> thai_mp3 +:+ ".truncate" ->
        fs w' !! path = fs w !! path) /\
    log w' =
      log w ++
      [Print MsgAdjusting;
       Print (if fgt speed_factor two || flt speed_factor half
              then MsgChained filter_chain else MsgSingle filter_chain);
       Filter (Atempo filter_chain) (thai_mp3 +:+ ".temp") thai_mp3;
       Probe thai_mp3; Print (MsgFinalDuration fa);
       Print (MsgStillDiffers fa vd); Print (MsgFactorApplied speed_factor);
       Print (MsgDifference (fabs (fsub fa vd))); Print MsgTruncating;
       Trim vd (thai_mp3 +:+ ".truncate") thai_mp3; Probe thai_mp3] ++
      match ffprobe_duration T (Some trimmed) with
      | Some d => [Print (MsgTruncatedDuration d)]
      | None => []
      end.
Proof.
  intros Hc Hsf Hchain Hok Hprobe Hlong Htrim.
  pose proof (temp_ne thai_mp3) as Hne.
  pose proof (truncate_ne thai_mp3) as Hne2.
  assert (Hne3 : thai_mp3 +:+ ".truncate" <> thai_mp3 +:+ ".temp").
  { intros H. apply append_inj_l in H. discriminate. }
  rewrite (adjust_speed_reaches_truncation T fuel vd speed_factor fa thai_mp3 w
             original adjusted filter_chain Hc Hsf Hchain Hok Hprobe Hlong).
  unfold try_except_cpe.
  rewrite (truncate_audio_ok T vd thai_mp3 adjusted trimmed); [ | | exact Htrim ].
  2:{ reduce. rewrite lookup_delete_ne by congruence. apply lookup_insert_eq. }
  exists {| fs := delete (thai_mp3 +:+ ".truncate")
                (<[thai_mp3 := trimmed]>
                   (<[thai_mp3 +:+ ".truncate" := adjusted]>
                      (delete thai_mp3
                         (delete (thai_mp3 +:+ ".temp")
                            (<[thai_mp3 := adjusted]>
                               (<[thai_mp3 +:+ ".temp" := original]>
                                  (delete thai_mp3 (fs w))))))));
        log := (log w ++
                [Print MsgAdjusting;
                 Print (if fgt speed_factor two || flt speed_factor half
                        then MsgChained filter_chain else MsgSingle filter_chain);
                 Filter (Atempo filter_chain) (thai_mp3 +:+ ".temp") thai_mp3;
                 Probe thai_mp3; Print (MsgFinalDuration fa);
                 Print (MsgStillDiffers fa vd); Print (MsgFactorApplied speed_factor);
                 Print (MsgDifference (fabs (fsub fa vd))); Print MsgTruncating]) ++
               [Trim vd (thai_mp3 +:+ ".truncate") thai_mp3; Probe thai_mp3] ++
               match ffprobe_duration T (Some trimmed) with
               | Some d => [Print (MsgTruncatedDuration d)]
               | None => []
               end |}.
  split.
  { destruct (ffprobe_duration T (Some trimmed)); reflexivity. }
  reduce. repeat split.
  - rewrite lookup_delete_ne by congruence. apply lookup_insert_eq.
  - apply lookup_delete_eq.
  - rewrite lookup_delete_ne, lookup_insert_ne by congruence.
    rewrite lookup_insert_ne, lookup_delete_ne by congruence.
    apply lookup_delete_eq.
  - intros path Hp1 Hp2 Hp3.
    rewrite lookup_delete_ne, lookup_insert_ne by congruence.
    rewrite lookup_insert_ne, !lookup_delete_ne by congruence.
    rewrite lookup_insert_ne, lookup_insert_ne, lookup_delete_ne by congruence.
    reflexivity.
  - rewrite <- !app_assoc. reflexivity.
Qed.

Lemma truncation_success_replaces_track_witness :
  exists w' : world,
    adjust_speed (demo_tools translate_ok probe_all filter_ok trim_ok) 5
        (Some (float_of_Z 10)) demo_factor demo_thai_mp3 demo_synthesized =
      (Val tt, w') /\
    fs w' !! demo_thai_mp3 = Some demo_trimmed /\
    fs w' !! (demo_thai_mp3 +:+ ".truncate") = None /\
    fs w' !! (demo_thai_mp3 +:+ ".temp") = None /\
    (forall path : string,
        path <> demo_thai_mp3 -> path <> demo_thai_mp3 +:+ ".temp" ->
        path <> demo_thai_mp3 +:+ ".truncate" ->
        fs w' !! path = fs demo_synthesized !! path) /\
    log w' =
      log demo_synthesized ++
      [Print MsgAdjusting;
       Print (MsgChained demo_chain);
       Filter (Atempo demo_chain) (demo_thai_mp3 +:+ ".temp") demo_thai_mp3;
       Probe demo_thai_mp3; Print (MsgFinalDuration (float_of_Z 12));
       Print (MsgStillDiffers (float_of_Z 12) (float_of_Z 10));
       Print (MsgFactorApplied demo_factor);
       Print (MsgDifference (fabs (fsub (float_of_Z 12) (float_of_Z 10))));
       Print MsgTruncating;
       Trim (float_of_Z 10) (demo_thai_mp3 +:+ ".truncate") demo_thai_mp3;
       Probe demo_thai_mp3] ++
      [Print (MsgTruncatedDuration (float_of_Z 10))].
Proof.
  apply (truncation_success_replaces_track
           (demo_tools translate_ok probe_all filter_ok trim_ok) 5
           (float_of_Z 10) demo_factor (float_of_Z 12)
           demo_thai_mp3 demo_synthesized demo_tts demo_adjusted demo_trimmed
           demo_chain).
  - reflexivity.
  - reflexivity.
  - reflexivity.
  - reflexivity.
  - reflexivity.
  - reflexivity.
  - reflexivity.
Defined.

(** Without the tests of lines 285 and 291 both passing there is no
    truncation: the speed-adjusted track is the final one, however much
    shorter than the video it is. *)
Lemma no_truncation_unless_too_long (T : tools) (fuel : nat)
    (vd speed_factor fa : float) (thai_mp3 : string) (w : world)
    (original adjusted : file) (filter_chain : list float) :
  fs w !! thai_mp3 = Some original ->
  fne speed_factor one = true ->
  build_filter_chain fuel speed_factor = Some filter_chain ->
  ffmpeg_filter T (Atempo filter_chain) (Some original) = Exit0 adjusted ->
  ffprobe_duration T (Some adjusted) = Some fa ->
  still_too_long fa vd = false ->
  exists w' : world,
    adjust_speed T fuel (Some vd) speed_factor thai_mp3 w = (Val tt, w') /\
    fs w' = delete (thai_mp3 +:+ ".temp") (<[thai_mp3 := adjusted]> (fs w)) /\
    log w' =
      log w ++
      [Print MsgAdjusting;
       Print (if fgt speed_factor two || flt speed_factor half
              then MsgChained filter_chain else MsgSingle filter_chain);
       Filter (Atempo filter_chain) (thai_mp3 +:+ ".temp") thai_mp3;
       Probe thai_mp3; Print (MsgFinalDuration fa)] ++
      (if truthy (Some fa) && truthy (Some vd) && fgt (fabs (fsub fa vd)) one
       then [Print (MsgStillDiffers fa vd); Print (MsgFactorApplied speed_factor);
             Print (MsgDifference (fabs (fsub fa vd)))]
       else []).
Proof.
  intros Hc Hsf Hchain Hok Hprobe Hlong.
  pose proof (temp_ne thai_mp3) as Hne.
  rewrite (adjust_speed_primary_ok T fuel (Some vd) speed_factor thai_mp3 w
             original adjusted filter_chain Hc Hsf Hchain Hok).
  rewrite Hprobe. unfold try_except_cpe. exec.
  unfold still_too_long in Hlong.
  assert (Hfs : delete (thai_mp3 +:+ ".temp")
                  (<[thai_mp3 := adjusted]>
                     (<[thai_mp3 +:+ ".temp" := original]> (delete thai_mp3 (fs w)))) =
                delete (thai_mp3 +:+ ".temp") (<[thai_mp3 := adjusted]> (fs w))).
  { apply map_eq. intros path.
    destruct (decide (path = thai_mp3 +:+ ".temp")) as [->|Hp].
    - rewrite !lookup_delete_eq. reflexivity.
    - rewrite !lookup_delete_ne by congruence.
      destruct (decide (path = thai_mp3)) as [->|Hp'].
      + rewrite !lookup_insert_eq. reflexivity.
      + rewrite !lookup_insert_ne, lookup_delete_ne by congruence. reflexivity. }
  destruct (truthy (Some fa) && truthy (Some vd) && fgt (fabs (fsub fa vd)) one);
    cbn [andb] in Hlong; exec.
  - rewrite Hlong. exec. eexists. split; [reflexivity|]. reduce.
    split; [exact Hfs|]. rewrite <- !app_assoc. reflexivity.
  - eexists. split; [reflexivity|]. reduce.
    split; [exact Hfs|]. rewrite <- !app_assoc. reflexivity.
Qed.

Lemma no_truncation_unless_too_long_witness :
  exists w' : world,
    adjust_speed (demo_tools translate_ok probe_ok filter_ok trim_ok) 5
        (Some (float_of_Z 20)) demo_factor demo_thai_mp3 demo_synthesized =
      (Val tt, w') /\
    fs w' = delete (demo_thai_mp3 +:+ ".temp")
              (<[demo_thai_mp3 := demo_adjusted]> (fs demo_synthesized)) /\
    log w' =
      log demo_synthesized ++
      [Print MsgAdjusting;
       Print (MsgChained demo_chain);
       Filter (Atempo demo_chain) (demo_thai_mp3 +:+ ".temp") demo_thai_mp3;
       Probe demo_thai_mp3; Print (MsgFinalDuration (float_of_Z 12))] ++
      [Print (MsgStillDiffers (float_of_Z 12) (float_of_Z 20));
       Print (MsgFactorApplied demo_factor);
       Print (MsgDifference (fabs (fsub (float_of_Z 12) (float_of_Z 20))))].
Proof.
  apply (no_truncation_unless_too_long
           (demo_tools translate_ok probe_ok filter_ok trim_ok) 5
           (float_of_Z 20) demo_factor (float_of_Z 12)
           demo_thai_mp3 demo_synthesized demo_tts demo_adjusted demo_chain).
  - reflexivity.
  - reflexivity.
  - reflexivity.
  - reflexivity.
  - reflexivity.
  - reflexivity.
Defined.

Lemma adjust_speed_outcome (T : tools) (fuel : nat)
    (video_duration : option float) (speed_factor : float) (thai_mp3 : string)
    (w : world) (original : file) (filter_chain : list float) :
  fs w !! thai_mp3 = Some original ->
  build_filter_chain fuel speed_factor = Some filter_chain ->
  exists (r : result unit) (w' : world),
    adjust_speed T fuel video_duration speed_factor thai_mp3 w = (r, w') /\
    is_Some (fs w' !! thai_mp3) /\
    (r = Val tt \/
     r = Raise TypeError /\ ffprobe_duration T (fs w' !! thai_mp3) = None).
Proof.
  intros Hc Hchain.
  pose proof (temp_ne thai_mp3) as Hne.
  pose proof (truncate_ne thai_mp3) as Hne2.
  destruct (fne speed_factor one) eqn:Hsf.
  2:{ unfold adjust_speed. rewrite Hsf. eexists _, _. split; [reflexivity|].
      split; [reduce; rewrite Hc; eexists; reflexivity | left; reflexivity]. }
  destruct (ffmpeg_filter T (Atempo filter_chain) (Some original)) as [adjusted | p] eqn:Hf.
  - destruct (ffprobe_duration T (Some adjusted)) as [fa|] eqn:Hprobe.
    + destruct video_duration as [vd|].
      * destruct (still_too_long fa vd) eqn:Hlong.
        -- rewrite (adjust_speed_reaches_truncation T fuel vd speed_factor fa thai_mp3 w
                      original adjusted filter_chain Hc Hsf Hchain Hf Hprobe Hlong).
           unfold try_except_cpe.
           destruct (ffmpeg_trim T vd (Some adjusted)) as [trimmed | p] eqn:Ht.
           ++ rewrite (truncate_audio_ok T vd thai_mp3 adjusted trimmed); [ | | exact Ht ].
              2:{ reduce. rewrite lookup_delete_ne by congruence. apply lookup_insert_eq. }
              assert (Hl : forall m : gmap string file,
                         delete (thai_mp3 +:+ ".truncate") (<[thai_mp3 := trimmed]> m)
                           !! thai_mp3 = Some trimmed).
              { intros m. rewrite lookup_delete_ne by congruence. apply lookup_insert_eq. }
              destruct (ffprobe_duration T (Some trimmed)) as [d|] eqn:Hp2;
                (eexists _, _; split; [reflexivity|]; reduce; rewrite Hl; split;
                 [eexists; reflexivity|]).
              ** left; reflexivity.
              ** right. split; [reflexivity | exact Hp2].
           ++ rewrite (truncate_audio_failure T vd thai_mp3 adjusted p); [ | | exact Ht ].
              2:{ reduce. rewrite lookup_delete_ne by congruence. apply lookup_insert_eq. }
              eexists _, _. split; [reflexivity|]. reduce.
              rewrite lookup_insert_eq. split; [eexists; reflexivity | left; reflexivity].
        -- rewrite (adjust_speed_primary_ok T fuel (Some vd) speed_factor thai_mp3 w
                      original adjusted filter_chain Hc Hsf Hchain Hf).
           rewrite Hprobe. unfold try_except_cpe. exec.
           unfold still_too_long in Hlong.
           destruct (truthy (Some fa) && truthy (Some vd) && fgt (fabs (fsub fa vd)) one);
             cbn [andb] in Hlong; exec; [rewrite Hlong; exec | ];
             (eexists _, _; split; [reflexivity|]; reduce;
              rewrite lookup_delete_ne, lookup_insert_eq by congruence;
              split; [eexists; reflexivity | left; reflexivity]).
      * rewrite (adjust_speed_primary_ok T fuel None speed_factor thai_mp3 w
                   original adjusted filter_chain Hc Hsf Hchain Hf).
        rewrite Hprobe. unfold try_except_cpe. exec.
        eexists _, _. split; [reflexivity|]. reduce.
        rewrite lookup_delete_ne, lookup_insert_eq by congruence.
        split; [eexists; reflexivity | left; reflexivity].
    + rewrite (adjust_speed_primary_ok T fuel video_duration speed_factor thai_mp3 w
                 original adjusted filter_chain Hc Hsf Hchain Hf).
      rewrite Hprobe. unfold try_except_cpe. exec.
      eexists _, _. split; [reflexivity|]. reduce.
      rewrite lookup_delete_ne, lookup_insert_eq by congruence.
      split; [eexists; reflexivity | right; split; [reflexivity | exact Hprobe]].
  - rewrite (adjust_speed_primary_fails T fuel video_duration speed_factor thai_mp3 w
               original filter_chain p Hc Hsf Hchain Hf).
    destruct (ffmpeg_filter T (Rubberband speed_factor) (Some original))
      as [stretched | p2] eqn:Hr.
    + rewrite (rubberband_fallback_ok T speed_factor _ _ original stretched);
        [ | congruence | | exact Hr ].
      2:{ reduce. rewrite lookup_write_partial_ne by congruence. apply lookup_insert_eq. }
      assert (Hl : forall m : gmap string file,
                 delete (thai_mp3 +:+ ".temp") (<[thai_mp3 := stretched]> m)
                   !! thai_mp3 = Some stretched).
      { intros m. rewrite lookup_delete_ne by congruence. apply lookup_insert_eq. }
      destruct (ffprobe_duration T (Some stretched)) as [d|] eqn:Hp2;
        (eexists _, _; split; [reflexivity|]; reduce; rewrite Hl; split;
         [eexists; reflexivity|]).
      * left; reflexivity.
      * right. split; [reflexivity | exact Hp2].
    + rewrite (rubberband_fallback_failure T speed_factor _ _ original p2);
        [ | congruence | | exact Hr ].
      2:{ reduce. rewrite lookup_write_partial_ne by congruence. apply lookup_insert_eq. }
      eexists _, _. split; [reflexivity|]. reduce.
      rewrite lookup_insert_eq. split; [eexists; reflexivity | left; reflexivity].
Qed.

(** An adjustment that ends leaves a track in place. *)
Lemma adjust_speed_track_in_place (T : tools) (fuel : nat)
    (video_duration : option float) (speed_factor : float) (thai_mp3 : string)
    (w w' : world) (r : result unit) :
  is_Some (fs w !! thai_mp3) ->
  adjust_speed T fuel video_duration speed_factor thai_mp3 w = (r, w') ->
  r <> OutOfFuel ->
  is_Some (fs w' !! thai_mp3).
Proof.
  intros [original Hc] Hrun Hr.
  destruct (build_filter_chain fuel speed_factor) as [filter_chain|] eqn:Hchain.
  - destruct (adjust_speed_outcome T fuel video_duration speed_factor thai_mp3 w
                original filter_chain Hc Hchain) as (r1 & w1 & H1 & Hin & _).
    rewrite H1 in Hrun. inversion Hrun; subst. exact Hin.
  - unfold adjust_speed in Hrun. destruct (fne speed_factor one).
    + exfalso. apply Hr. revert Hrun.
      unfold mbind at 1 2 3, M_bind at 1 2 3, bind at 1 2 3.
      unfold print at 1, emit at 1.
      rewrite (os_rename_run _ _ original) by exact Hc.
      unfold plan_filter. rewrite Hchain. exec. congruence.
    + inversion Hrun; subst. reduce. rewrite Hc. eexists; reflexivity.
Qed.

(** Whatever the filters, the trim and the probe do, an adjustment that
    starts with the track in place and a planned chain ends either
    normally or with the [TypeError] of a failed reprobe; it never ends
    with [CalledProcessError] or [FileNotFoundError], and in both cases a
    track is in place under [thai_mp3]. *)
Lemma adjust_speed_ends_with_track (T : tools) (fuel : nat)
    (video_duration : option float) (speed_factor : float) (thai_mp3 : string)
    (w : world) (original : file) (filter_chain : list float) :
  fs w !! thai_mp3 = Some original ->
  build_filter_chain fuel speed_factor = Some filter_chain ->
  exists (r : result unit) (w' : world),
    adjust_speed T fuel video_duration speed_factor thai_mp3 w = (r, w') /\
    is_Some (fs w' !! thai_mp3) /\
    (r = Val tt \/
     r = Raise TypeError /\ ffprobe_duration T (fs w' !! thai_mp3) = None).
Proof. apply adjust_speed_outcome. Qed.

Lemma adjust_speed_ends_with_track_witness :
  exists (r : result unit) (w' : world),
    adjust_speed (demo_tools translate_ok probe_adjusted_fails filter_ok trim_fails)
        5 (Some (float_of_Z 10)) demo_factor demo_thai_mp3 demo_synthesized =
      (r, w') /\
    is_Some (fs w' !! demo_thai_mp3) /\
    (r = Val tt \/
     r = Raise TypeError /\
     ffprobe_duration (demo_tools translate_ok probe_adjusted_fails filter_ok trim_fails)
       (fs w' !! demo_thai_mp3) = None).
Proof.
  apply (adjust_speed_ends_with_track
           (demo_tools translate_ok probe_adjusted_fails filter_ok trim_fails)
           5 (Some (float_of_Z 10)) demo_factor demo_thai_mp3 demo_synthesized
           demo_tts demo_chain).
  - reflexivity.
  - reflexivity.
Defined.

(** ** The files and the exceptions of a run *)

Lemma keeps_weaken {A} (P Q : string -> Prop) (m : M A) :
  (forall path : string, P path -> Q path) -> keeps P m -> keeps Q m.
Proof. intros HPQ Hm w path Hq. apply Hm. intros Hp. apply Hq, HPQ, Hp. Qed.

Lemma keeps_text_to_speech (P : string -> Prop) (T : tools) (t : text)
    (tts_path : string) :
  P tts_path -> keeps P (text_to_speech T t tts_path).
Proof.
  intros Hp. unfold text_to_speech. apply keeps_bind; [apply keeps_emit | intros _].
  destruct (gtts_save T t); [apply keeps_insert, Hp|].
  destruct (gtts_save_retry T t); [apply keeps_insert, Hp | apply keeps_raise].
Qed.

Lemma keeps_thai_translation (P : string -> Prop) (T : tools) (a : args)
    (english_text : text) :
  P manual_file -> keeps P (thai_translation T a english_text).
Proof.
  intros Hp. unfold thai_translation. apply keeps_bind.
  { destruct (thai_file a) as [path|]; [|apply keeps_ret].
    destruct (String.eqb path ""); [apply keeps_ret | apply keeps_read_file]. }
  intros manual.
  assert (Hauto : keeps P
            (print MsgTranslating;;
             thai_text ← translate_english_to_thai_google T english_text;
             if negb (has_thai thai_text) then
               print MsgTranslateFailed;;
               write_text manual_file english_text;;
               print (MsgSavedTo manual_file);;
               print MsgPleaseTranslate;;
               print (MsgRunAgain (input_video a) (output_video a));;
               mret None
             else mret (Some thai_text))).
  { apply keeps_bind; [apply keeps_print | intros _].
    apply keeps_bind.
    { unfold translate_english_to_thai_google. repeat keeps_step. }
    intros thai_text. destruct (negb (has_thai thai_text)); [|apply keeps_ret].
    apply keeps_bind; [apply keeps_print | intros _].
    apply keeps_bind.
    { unfold write_text. apply keeps_bind; [apply keeps_emit | intros _].
      apply keeps_insert, Hp. }
    intros _. repeat keeps_step. }
  destruct (thai_file a) as [path|]; [|exact Hauto].
  destruct manual as [content|]; [|exact Hauto].
  apply keeps_bind; [apply keeps_print | intros _].
  destruct content; [apply keeps_ret | apply keeps_raise].
Qed.

Lemma keeps_main (T : tools) (fuel : nat) (a : args) (tmpdir : string) :
  keeps (main_path a tmpdir) (main T fuel a tmpdir).
Proof.
  unfold main. apply keeps_bind.
  { unfold english_transcript. apply keeps_bind.
    { unfold extract_audio. apply keeps_bind; [apply keeps_read_file | intros video].
      apply keeps_bind; [apply keeps_emit | intros _].
      apply keeps_run_checked. left. reflexivity. }
    intros _. apply keeps_bind.
    { unfold transcribe_audio. repeat keeps_step. }
    intros chinese_text. unfold translate_text. repeat keeps_step. }
  intros english_text. apply keeps_bind.
  { apply keeps_thai_translation. right. right. left. reflexivity. }
  intros [thai_text|]; [|apply keeps_ret].
  apply keeps_bind.
  { unfold synthesize.
    apply keeps_bind; [apply keeps_print | intros _].
    apply keeps_bind; [unfold get_video_duration; repeat keeps_step | intros vd].
    apply keeps_bind; [apply keeps_format_1f | intros d].
    apply keeps_bind; [apply keeps_print | intros _].
    apply keeps_bind.
    { apply keeps_text_to_speech. right. left. left. reflexivity. }
    intros _.
    apply keeps_bind; [apply keeps_get_audio_duration | intros ad].
    apply keeps_bind; [apply keeps_format_1f | intros d'].
    apply keeps_bind; [apply keeps_print | intros _].
    apply keeps_bind; [apply keeps_print | intros _].
    apply keeps_ret. }
  intros [video_duration speed_factor].
  apply keeps_bind.
  { apply (keeps_weaken (adjustment_path (tmpdir +:+ "/thai.mp3"))).
    - intros path Hp. right. left. exact Hp.
    - apply keeps_adjust_speed. }
  intros _. unfold replace_audio.
  apply keeps_bind; [apply keeps_read_file | intros video].
  apply keeps_bind; [apply keeps_read_file | intros audio].
  apply keeps_bind; [apply keeps_emit | intros _].
  apply keeps_run_checked. right. right. right. reflexivity.
Qed.

(** Whatever the tools do and however the run ends, [main] changes no
    file other than [audio.wav] and [thai.mp3] (with its two temporary
    names) in the temporary directory, [english_for_translation.txt] and
    the output video.  In particular the input video is never modified
    unless it is one of these paths. *)
Lemma main_touches_only_its_files (T : tools) (fuel : nat) (a : args)
    (tmpdir : string) (w : world) (path : string) :
  ~ main_path a tmpdir path ->
  fs (snd (main T fuel a tmpdir w)) !! path = fs w !! path.
Proof. intros H. apply keeps_main, H. Qed.

Lemma main_touches_only_its_files_witness :
  fs (snd (main (demo_tools translate_ok probe_ok filter_ok trim_fails) 5
             demo_args demo_tmpdir demo_start)) !! "in.mp4" =
    fs demo_start !! "in.mp4".
Proof.
  apply (main_touches_only_its_files
           (demo_tools translate_ok probe_ok filter_ok trim_fails) 5
           demo_args demo_tmpdir demo_start "in.mp4").
  intros [H | [[H | [H | H]] | [H | H]]]; vm_compute in H; discriminate H.
Defined.

(** ** How a sequence of steps ends *)

Lemma bind_inv {A B} (m : M A) (k : A -> M B) (w w' : world) (r : result B) :
  (m ≫= k) w = (r, w') ->
  (exists (a : A) (w1 : world), m w = (Val a, w1) /\ k a w1 = (r, w')) \/
  (exists e : exn, m w = (Raise e, w') /\ r = Raise e) \/
  (m w = (OutOfFuel, w') /\ r = OutOfFuel).
Proof.
  unfold mbind, M_bind, bind. destruct (m w) as [[a | e |] w1]; intros H.
  - left. eexists _, _. split; [reflexivity | exact H].
  - right. left. inversion H; subst. eexists. split; reflexivity.
  - right. right. inversion H; subst. split; reflexivity.
Qed.

Lemma never_raises_ret {A} (e : exn) (a : A) : never_raises e (mret a).
Proof. intros w. discriminate. Qed.

Lemma never_raises_emit (e : exn) (ev : event) : never_raises e (emit ev).
Proof. intros w. discriminate. Qed.

Lemma never_raises_read_file (e : exn) (path : string) : never_raises e (read_file path).
Proof. intros w. discriminate. Qed.

Lemma never_raises_set_fs (e : exn) (f : gmap string file -> gmap string file) :
  never_raises e (set_fs f).
Proof. intros w. discriminate. Qed.

Lemma never_raises_out_of_fuel {A} (e : exn) : never_raises e (@out_of_fuel A).
Proof. intros w. discriminate. Qed.

Lemma never_raises_raise {A} (e e' : exn) : e' <> e -> never_raises e (@raise A e').
Proof. intros H w. cbn. congruence. Qed.

Lemma never_raises_bind {A B} (e : exn) (m : M A) (k : A -> M B) :
  never_raises e m -> (forall a : A, never_raises e (k a)) -> never_raises e (m ≫= k).
Proof.
  intros Hm Hk w. specialize (Hm w). unfold mbind, M_bind, bind.
  destruct (m w) as [[a | e' |] w1]; cbn [fst] in *.
  - apply Hk.
  - congruence.
  - discriminate.
Qed.

Lemma never_raises_try {A} (body handler : M A) :
  never_raises CalledProcessError handler ->
  never_raises CalledProcessError (try_except_cpe body handler).
Proof.
  intros Hh w. unfold try_except_cpe.
  destruct (body w) as [[a | e |] w1]; cbn [fst]; try discriminate.
  destruct e; cbn [fst]; try discriminate. apply Hh.
Qed.

Lemma never_raises_os_rename (src dst : string) :
  never_raises CalledProcessError (os_rename src dst).
Proof.
  unfold os_rename. apply never_raises_bind; [apply never_raises_read_file|].
  intros [c|]; [apply never_raises_set_fs | apply never_raises_raise; discriminate].
Qed.

Lemma never_raises_format_1f (d : option float) :
  never_raises CalledProcessError (format_1f d).
Proof.
  destruct d; [apply (never_raises_ret _ s) | apply never_raises_raise; discriminate].
Qed.

Lemma never_raises_adjust_speed (T : tools) (fuel : nat)
    (video_duration : option float) (speed_factor : float) (thai_mp3 : string) :
  never_raises CalledProcessError
    (adjust_speed T fuel video_duration speed_factor thai_mp3).
Proof.
  unfold adjust_speed. destruct (fne speed_factor one); [|apply never_raises_emit].
  apply never_raises_bind; [apply never_raises_emit | intros _].
  apply never_raises_bind; [apply never_raises_os_rename | intros _].
  apply never_raises_bind.
  { unfold plan_filter. destruct (build_filter_chain fuel speed_factor);
      [|apply never_raises_out_of_fuel].
    apply never_raises_bind; [apply never_raises_emit | intros _].
    apply never_raises_ret. }
  intros filter_str. apply never_raises_try.
  apply never_raises_bind; [apply never_raises_emit | intros _].
  apply never_raises_bind; [apply never_raises_emit | intros _].
  unfold rubberband_fallback. apply never_raises_try.
  apply never_raises_bind; [apply never_raises_emit | intros _].
  apply never_raises_bind; [apply never_raises_emit | intros _].
  apply never_raises_os_rename.
Qed.

Lemma never_raises_thai_translation (T : tools) (a : args) (english_text : text) :
  never_raises CalledProcessError (thai_translation T a english_text).
Proof.
  unfold thai_translation. apply never_raises_bind.
  { destruct (thai_file a) as [path|]; [|apply never_raises_ret].
    destruct (String.eqb path ""); [apply never_raises_ret | apply never_raises_read_file]. }
  intros manual.
  assert (Hauto : never_raises CalledProcessError
            (print MsgTranslating;;
             thai_text ← translate_english_to_thai_google T english_text;
             if negb (has_thai thai_text) then
               print MsgTranslateFailed;;
               write_text manual_file english_text;;
               print (MsgSavedTo manual_file);;
               print MsgPleaseTranslate;;
               print (MsgRunAgain (input_video a) (output_video a));;
               mret None
             else mret (Some thai_text))).
  { apply never_raises_bind; [apply never_raises_emit | intros _].
    apply never_raises_bind.
    { unfold translate_english_to_thai_google.
      apply never_raises_bind; [apply never_raises_emit | intros _].
      apply never_raises_ret. }
    intros thai_text. destruct (negb (has_thai thai_text)); [|apply never_raises_ret].
    apply never_raises_bind; [apply never_raises_emit | intros _].
    apply never_raises_bind.
    { unfold write_text. apply never_raises_bind; [apply never_raises_emit | intros _].
      apply never_raises_set_fs. }
    intros _.
    apply never_raises_bind; [apply never_raises_emit | intros _].
    apply never_raises_bind; [apply never_raises_emit | intros _].
    apply never_raises_bind; [apply never_raises_emit | intros _].
    apply never_raises_ret. }
  destruct (thai_file a) as [path|]; [|exact Hauto].
  destruct manual as [content|]; [|exact Hauto].
  apply never_raises_bind; [apply never_raises_emit | intros _].
  destruct content; [apply never_raises_ret | apply never_raises_raise; discriminate].
Qed.

Lemma never_raises_synthesize (T : tools) (a : args) (thai_text : text)
    (thai_mp3 : string) :
  never_raises CalledProcessError (synthesize T a thai_text thai_mp3).
Proof.
  unfold synthesize.
  apply never_raises_bind; [apply never_raises_emit | intros _].
  apply never_raises_bind.
  { unfold get_video_duration.
    apply never_raises_bind; [apply never_raises_read_file | intros v].
    apply never_raises_bind; [apply never_raises_emit | intros _].
    apply never_raises_ret. }
  intros vd.
  apply never_raises_bind; [apply never_raises_format_1f | intros d].
  apply never_raises_bind; [apply never_raises_emit | intros _].
  apply never_raises_bind.
  { unfold text_to_speech.
    apply never_raises_bind; [apply never_raises_emit | intros _].
    destruct (gtts_save T thai_text); [apply never_raises_set_fs|].
    destruct (gtts_save_retry T thai_text);
      [apply never_raises_set_fs | apply never_raises_raise; discriminate]. }
  intros _.
  apply never_raises_bind.
  { unfold get_audio_duration.
    apply never_raises_bind; [apply never_raises_read_file | intros v].
    apply never_raises_bind; [apply never_raises_emit | intros _].
    apply never_raises_ret. }
  intros ad.
  apply never_raises_bind; [apply never_raises_format_1f | intros d'].
  apply never_raises_bind; [apply never_raises_emit | intros _].
  apply never_raises_bind; [apply never_raises_emit | intros _].
  apply never_raises_ret.
Qed.

Lemma extract_audio_run (T : tools) (video_path audio_path : string) (w : world) :
  extract_audio T video_path audio_path w =
    match ffmpeg_extract T (fs w !! video_path) with
    | Exit0 out =>
        (Val tt, {| fs := <[audio_path := out]> (fs w);
                    log := log w ++ [Extract video_path audio_path] |})
    | ExitFail p =>
        (Raise CalledProcessError,
         {| fs := write_partial p audio_path (fs w);
            log := log w ++ [Extract video_path audio_path] |})
    end.
Proof.
  unfold extract_audio. exec.
  destruct (ffmpeg_extract T (fs w !! video_path)); reflexivity.
Qed.

Lemma replace_audio_run (T : tools) (video_path audio_path output_path : string)
    (w : world) :
  replace_audio T video_path audio_path output_path w =
    match ffmpeg_mux T (fs w !! video_path) (fs w !! audio_path) with
    | Exit0 out =>
        (Val tt, {| fs := <[output_path := out]> (fs w);
                    log := log w ++ [Mux video_path audio_path output_path] |})
    | ExitFail p =>
        (Raise CalledProcessError,
         {| fs := write_partial p output_path (fs w);
            log := log w ++ [Mux video_path audio_path output_path] |})
    end.
Proof.
  unfold replace_audio. exec.
  destruct (ffmpeg_mux T (fs w !! video_path) (fs w !! audio_path)); reflexivity.
Qed.

(** The only two [CalledProcessError]s that end a run are a failed
    extraction (line 36) and a failed muxing (line 129): every failure of
    a filter or trim call in between is caught. *)
Lemma main_called_process_error (T : tools) (fuel : nat) (a : args)
    (tmpdir : string) (w w' : world) :
  main T fuel a tmpdir w = (Raise CalledProcessError, w') ->
  (exists p : option file,
      ffmpeg_extract T (fs w !! input_video a) = ExitFail p /\
      log w' = log w ++ [Extract (input_video a) (tmpdir +:+ "/audio.wav")]) \/
  (exists (w1 : world) (p : option file),
      ffmpeg_mux T (fs w1 !! input_video a) (fs w1 !! (tmpdir +:+ "/thai.mp3")) =
        ExitFail p /\
      log w' = log w1 ++ [Mux (input_video a) (tmpdir +:+ "/thai.mp3") (output_video a)]).
Proof.
  intros H. unfold main in H.
  apply bind_inv in H.
  destruct H as [(english_text & w1 & H1 & H) | [(e & H1 & He) | [_ He]]];
    [ | | discriminate].
  - right. apply bind_inv in H.
    destruct H as [(thai & w2 & H2 & H) | [(e & H2 & He) | [_ He]]];
      [ | | discriminate].
    2:{ exfalso. apply (never_raises_thai_translation T a english_text w1).
        rewrite H2. cbn [fst]. congruence. }
    destruct thai as [thai_text|]; [|discriminate].
    apply bind_inv in H.
    destruct H as [([vd sf] & w3 & H3 & H) | [(e & H3 & He) | [_ He]]];
      [ | | discriminate].
    2:{ exfalso.
        apply (never_raises_synthesize T a thai_text (tmpdir +:+ "/thai.mp3") w2).
        rewrite H3. cbn [fst]. congruence. }
    apply bind_inv in H.
    destruct H as [(u & w4 & H4 & H) | [(e & H4 & He) | [_ He]]];
      [ | | discriminate].
    2:{ exfalso.
        apply (never_raises_adjust_speed T fuel vd sf (tmpdir +:+ "/thai.mp3") w3).
        rewrite H4. cbn [fst]. congruence. }
    rewrite replace_audio_run in H.
    destruct (ffmpeg_mux T (fs w4 !! input_video a)
                (fs w4 !! (tmpdir +:+ "/thai.mp3"))) as [out | p] eqn:Hm;
      [discriminate|].
    exists w4, p. split; [exact Hm|]. inversion H; subst. reflexivity.
  - left. injection He as <-.
    unfold english_transcript in H1. apply bind_inv in H1.
    destruct H1 as [(u & w2 & H2 & H1) | [(e' & H2 & He') | [_ He']]];
      [ | | discriminate].
    + exfalso.
      assert (Hn : never_raises CalledProcessError
                (chinese_text ← transcribe_audio T (tmpdir +:+ "/audio.wav");
                 translate_text T chinese_text "en")).
      { apply never_raises_bind.
        - unfold transcribe_audio.
          apply never_raises_bind; [apply never_raises_read_file | intros v].
          apply never_raises_bind; [apply never_raises_emit | intros _].
          apply never_raises_ret.
        - intros chinese_text. unfold translate_text.
          apply never_raises_bind; [apply never_raises_emit | intros _].
          apply never_raises_ret. }
      apply (Hn w2). rewrite H1. reflexivity.
    + rewrite extract_audio_run in H2.
      destruct (ffmpeg_extract T (fs w !! input_video a)) as [out | p] eqn:Hx;
        [discriminate|].
      exists p. split; [reflexivity|]. inversion H2; subst. reflexivity.
Qed.

Lemma main_called_process_error_witness :
  (exists p : option file,
      ffmpeg_extract
        (without_extraction (demo_tools translate_ok probe_ok filter_ok trim_fails))
        (fs demo_start !! input_video demo_args) = ExitFail p /\
      [Extract "in.mp4" "/tmp/t/audio.wav"] =
        log demo_start ++ [Extract (input_video demo_args) (demo_tmpdir +:+ "/audio.wav")]) \/
  (exists (w1 : world) (p : option file),
      ffmpeg_mux
        (without_extraction (demo_tools translate_ok probe_ok filter_ok trim_fails))
        (fs w1 !! input_video demo_args) (fs w1 !! (demo_tmpdir +:+ "/thai.mp3")) =
        ExitFail p /\
      [Extract "in.mp4" "/tmp/t/audio.wav"] =
        log w1 ++ [Mux (input_video demo_args) (demo_tmpdir +:+ "/thai.mp3")
                     (output_video demo_args)]).
Proof.
  apply (main_called_process_error
           (without_extraction (demo_tools translate_ok probe_ok filter_ok trim_fails))
           5 demo_args demo_tmpdir demo_start
           {| fs := fs demo_start; log := [Extract "in.mp4" "/tmp/t/audio.wav"] |}).
  reflexivity.
Defined.

Lemma thai_translation_early_return (T : tools) (a : args) (english_text : text)
    (w w' : world) :
  thai_translation T a english_text w = (Val None, w') ->
  fs w' = <[manual_file := TextFile english_text]> (fs w) /\
  last (log w') = Some (Print (MsgRunAgain (input_video a) (output_video a))).
Proof.
  assert (Hauto : forall w0 : world,
            (print MsgTranslating;;
             thai_text ← translate_english_to_thai_google T english_text;
             if negb (has_thai thai_text) then
               print MsgTranslateFailed;;
               write_text manual_file english_text;;
               print (MsgSavedTo manual_file);;
               print MsgPleaseTranslate;;
               print (MsgRunAgain (input_video a) (output_video a));;
               mret None
             else mret (Some thai_text)) w0 = (Val None, w') ->
            fs w' = <[manual_file := TextFile english_text]> (fs w0) /\
            last (log w') = Some (Print (MsgRunAgain (input_video a) (output_video a)))).
  { intros w0. unfold translate_english_to_thai_google, write_text. exec.
    destruct (negb (has_thai _)); exec; intros H; inversion H; subst; reduce.
    split; [reflexivity|]. apply last_snoc. }
  unfold thai_translation. intros H. apply bind_inv in H.
  destruct H as [(manual & w1 & H1 & H) | [(e & H1 & He) | [_ He]]];
    [ | discriminate | discriminate].
  assert (Hw : w1 = w).
  { destruct (thai_file a) as [path|]; [destruct (String.eqb path "")|];
      inversion H1; reflexivity. }
  subst w1.
  destruct (thai_file a) as [path|]; [|apply Hauto, H].
  destruct manual as [content|]; [|apply Hauto, H].
  revert H. exec. destruct content; discriminate.
Qed.

Lemma text_to_speech_track_in_place (T : tools) (t : text) (tts_path : string)
    (w w' : world) (u : unit) :
  text_to_speech T t tts_path w = (Val u, w') -> is_Some (fs w' !! tts_path).
Proof.
  unfold text_to_speech. exec.
  destruct (gtts_save T t) as [audio|]; exec.
  - intros H. inversion H; subst. reduce. rewrite lookup_insert_eq. eexists; reflexivity.
  - destruct (gtts_save_retry T t) as [audio|]; exec; [|discriminate].
    intros H. inversion H; subst. reduce. rewrite lookup_insert_eq. eexists; reflexivity.
Qed.

Lemma synthesize_track_in_place (T : tools) (a : args) (thai_text : text)
    (thai_mp3 : string) (w w' : world) (r : option float * float) :
  synthesize T a thai_text thai_mp3 w = (Val r, w') ->
  is_Some (fs w' !! thai_mp3).
Proof.
  unfold synthesize. intros H.
  do 4 (apply bind_inv in H;
        destruct H as [(? & ? & _ & H) | [(? & _ & ?) | [_ ?]]];
        [ | discriminate | discriminate]).
  apply bind_inv in H.
  destruct H as [(u & w1 & Htts & H) | [(? & _ & ?) | [_ ?]]];
    [ | discriminate | discriminate].
  apply text_to_speech_track_in_place in Htts.
  revert H. exec. rewrite get_audio_duration_run. reduce.
  destruct (ffprobe_duration T _) as [ad|]; exec; intros H; inversion H; subst.
  exact Htts.
Qed.

(** A run that ends normally has either returned early at line 212, with
    the English text saved for manual translation, or written the output
    video: what ffmpeg made of the input video and of a track that was in
    place. *)
Lemma main_normal_end (T : tools) (fuel : nat) (a : args) (tmpdir : string)
    (w w' : world) :
  main T fuel a tmpdir w = (Val tt, w') ->
  (exists (english_text : text) (w1 : world),
      english_transcript T a tmpdir w = (Val english_text, w1) /\
      fs w' = <[manual_file := TextFile english_text]> (fs w1) /\
      last (log w') = Some (Print (MsgRunAgain (input_video a) (output_video a)))) \/
  (exists (w1 : world) (out : file),
      is_Some (fs w1 !! (tmpdir +:+ "/thai.mp3")) /\
      ffmpeg_mux T (fs w1 !! input_video a) (fs w1 !! (tmpdir +:+ "/thai.mp3")) =
        Exit0 out /\
      fs w' = <[output_video a := out]> (fs w1) /\
      log w' = log w1 ++ [Mux (input_video a) (tmpdir +:+ "/thai.mp3") (output_video a)]).
Proof.
  intros H. unfold main in H.
  apply bind_inv in H.
  destruct H as [(english_text & w1 & H1 & H) | [(e & H1 & He) | [_ He]]];
    [ | discriminate | discriminate].
  apply bind_inv in H.
  destruct H as [(thai & w2 & H2 & H) | [(e & H2 & He) | [_ He]]];
    [ | discriminate | discriminate].
  destruct thai as [thai_text|].
  - right. apply bind_inv in H.
    destruct H as [([vd sf] & w3 & H3 & H) | [(e & H3 & He) | [_ He]]];
      [ | discriminate | discriminate].
    apply bind_inv in H.
    destruct H as [(u & w4 & H4 & H) | [(e & H4 & He) | [_ He]]];
      [ | discriminate | discriminate].
    rewrite replace_audio_run in H.
    destruct (ffmpeg_mux T (fs w4 !! input_video a)
                (fs w4 !! (tmpdir +:+ "/thai.mp3"))) as [out | p] eqn:Hm;
      [|discriminate].
    exists w4, out. inversion H; subst. reduce.
    split; [|split; [exact Hm | split; reflexivity]].
    apply (adjust_speed_track_in_place T fuel vd sf _ w3 w4 (Val u));
      [ | exact H4 | discriminate].
    apply (synthesize_track_in_place T a thai_text _ w2 w3 (vd, sf) H3).
  - left. inversion H; subst.
    apply thai_translation_early_return in H2. destruct H2 as [Hfs Hlog].
    exists english_text, w1. split; [exact H1 | split; assumption].
Qed.

Lemma main_normal_end_witness :
  (exists (english_text : text) (w1 : world),
      english_transcript (demo_tools translate_ok probe_all filter_ok trim_ok)
        demo_args demo_tmpdir demo_start = (Val english_text, w1) /\
      fs (snd (main (demo_tools translate_ok probe_all filter_ok trim_ok) 5
                 demo_args demo_tmpdir demo_start)) =
        <[manual_file := TextFile english_text]> (fs w1) /\
      last (log (snd (main (demo_tools translate_ok probe_all filter_ok trim_ok) 5
                        demo_args demo_tmpdir demo_start))) =
        Some (Print (MsgRunAgain (input_video demo_args) (output_video demo_args)))) \/
  (exists (w1 : world) (out : file),
      is_Some (fs w1 !! (demo_tmpdir +:+ "/thai.mp3")) /\
      ffmpeg_mux (demo_tools translate_ok probe_all filter_ok trim_ok)
        (fs w1 !! input_video demo_args) (fs w1 !! (demo_tmpdir +:+ "/thai.mp3")) =
        Exit0 out /\
      fs (snd (main (demo_tools translate_ok probe_all filter_ok trim_ok) 5
                 demo_args demo_tmpdir demo_start)) =
        <[output_video demo_args := out]> (fs w1) /\
      log (snd (main (demo_tools translate_ok probe_all filter_ok trim_ok) 5
                  demo_args demo_tmpdir demo_start)) =
        log w1 ++ [Mux (input_video demo_args) (demo_tmpdir +:+ "/thai.mp3")
                     (output_video demo_args)]).
Proof.
  apply (main_normal_end (demo_tools translate_ok probe_all filter_ok trim_ok) 5
           demo_args demo_tmpdir demo_start
           (snd (main (demo_tools translate_ok probe_all filter_ok trim_ok) 5
                   demo_args demo_tmpdir demo_start))).
  reflexivity.
Defined.

(** ** A manual translation *)

(** With [--thai_file] naming an existing text file, step 4 asks no
    translation and applies no Thai-script test: the stripped content of
    the file goes to the synthesis whatever it holds, and the run never
    takes the early return of line 212. *)
Lemma manual_translation_is_not_checked (T : tools) (fuel : nat) (a : args)
    (tmpdir : string) (w w1 : world) (english_text t : text) (path : string) :
  english_transcript T a tmpdir w = (Val english_text, w1) ->
  thai_file a = Some path ->
  path <> "" ->
  fs w1 !! path = Some (TextFile t) ->
  main T fuel a tmpdir w =
    ('(video_duration, speed_factor) ←
        synthesize T a (strip t) (tmpdir +:+ "/thai.mp3");
     adjust_speed T fuel video_duration speed_factor (tmpdir +:+ "/thai.mp3");;
     replace_audio T (input_video a) (tmpdir +:+ "/thai.mp3") (output_video a))
      {| fs := fs w1; log := log w1 ++ [Print (MsgUsingManual path)] |}.
Proof.
  intros H13 Hfile Hpath Hc. unfold main.
  rewrite (bind_val _ _ _ _ _ H13).
  assert (H4 : thai_translation T a english_text w1 =
               (Val (Some (strip t)),
                {| fs := fs w1; log := log w1 ++ [Print (MsgUsingManual path)] |})).
  { unfold thai_translation. rewrite Hfile.
    destruct (String.eqb_spec path "") as [E | _]; [contradiction|].
    unfold mbind at 1, M_bind at 1, bind at 1. exec. rewrite Hc. reflexivity. }
  rewrite (bind_val _ _ _ _ _ H4). reflexivity.
Qed.

Lemma manual_translation_is_not_checked_witness :
  main (demo_tools translate_down probe_ok filter_ok trim_fails) 5
      demo_manual_args demo_tmpdir demo_manual_start =
    ('(video_duration, speed_factor) ←
        synthesize (demo_tools translate_down probe_ok filter_ok trim_fails)
          demo_manual_args (strip ([0x20] ++ demo_english ++ [0x0A])%N)
          (demo_tmpdir +:+ "/thai.mp3");
     adjust_speed (demo_tools translate_down probe_ok filter_ok trim_fails) 5
       video_duration speed_factor (demo_tmpdir +:+ "/thai.mp3");;
     replace_audio (demo_tools translate_down probe_ok filter_ok trim_fails)
       (input_video demo_manual_args) (demo_tmpdir +:+ "/thai.mp3")
       (output_video demo_manual_args))
      {| fs := fs demo_manual_transcribed;
         log := log demo_manual_transcribed ++
                [Print (MsgUsingManual "thai_translation.txt")] |}.
Proof.
  apply (manual_translation_is_not_checked
           (demo_tools translate_down probe_ok filter_ok trim_fails) 5
           demo_manual_args demo_tmpdir demo_manual_start
           demo_manual_transcribed
           demo_chinese ([0x20] ++ demo_english ++ [0x0A])%N "thai_translation.txt").
  - reflexivity.
  - reflexivity.
  - discriminate.
  - reflexivity.
Defined.

(** The run of the sample above: the English words of the file are
    synthesized and muxed. *)
Example run_with_manual_translation :
  let r := main (demo_tools translate_down probe_ok filter_ok trim_fails) 5
             demo_manual_args demo_tmpdir demo_manual_start in
  fst r = Val tt /\
  In (Synthesize demo_thai_mp3) (log (snd r)) /\
  ~ In (Translate "en" "th") (log (snd r)) /\
  last (log (snd r)) = Some (Mux "in.mp4" demo_thai_mp3 "out.mp4").
Proof.
  vm_compute. repeat split; try reflexivity.
  - tauto.
  - intros H. repeat (destruct H as [H | H]; [discriminate H|]). exact H.
Qed.
